(** * Iowa DNR scraper: text extraction and settlement recovery

    A shallow embedding of [scraper/pdf_extractor/pdf_extractor.py] and of the
    pattern table of [scraper/config/config.py].

    Conventions of the embedding.

    - A Python [str] is a [string]: a sequence of code points below 256.  On
      such text [\d] is the ten ASCII digits, [\s] is the white space of
      [str.isspace] below 256, and [re.IGNORECASE] relates exactly the two
      cases of an ASCII letter (the patterns only contain ASCII).
    - A Python [float] obtained from a numeral is kept as the exact decimal
      value of that numeral, a [Q] of the shape [digits # 10^k]; the source
      holds the binary64 number nearest to this value.
    - Logging has no influence on results and is left out.
    - The network, the PDF libraries, the recognition engine and the file
      system are a [World] of oracles; calls that reach them are recorded in
      a trace. *)

From Stdlib Require Import String Ascii List Bool Arith NArith ZArith QArith Lia.
Import ListNotations.
Close Scope Q_scope.
Open Scope string_scope.


(** ** Characters *)

Module Char.

Definition code (c : ascii) : N := N_of_ascii c.

(** [\d] on code points below 256. *)
Definition is_digit (c : ascii) : bool :=
  ((48 <=? code c) && (code c <=? 57))%N.

(** [\s], and the characters removed by [str.strip()]: TAB, LF, VT, FF, CR,
    FS, GS, RS, US, SPACE, NEL and NBSP. *)
Definition is_space (c : ascii) : bool :=
  (((9 <=? code c) && (code c <=? 13)) || ((28 <=? code c) && (code c <=? 32))
   || (code c =? 133) || (code c =? 160))%N.

Definition is_upper (c : ascii) : bool :=
  ((65 <=? code c) && (code c <=? 90))%N.

(** Case folding used by [re.IGNORECASE] for ASCII pattern characters. *)
Definition lower (c : ascii) : ascii :=
  if is_upper c then ascii_of_N (code c + 32) else c.

Definition is_dollar (c : ascii) : bool := Ascii.eqb c "$".

Definition is_newline (c : ascii) : bool := Ascii.eqb c "010".

End Char.

(** ** Strings *)

Definition holds (p : ascii -> bool) (o : option ascii) : bool :=
  match o with
  | Some c => p c
  | None => false
  end.

(** The character before position [i], if any. *)
Definition prev_char (s : string) (i : nat) : option ascii :=
  match i with
  | O => None
  | S j => get j s
  end.

(** [s[n:]] *)
Fixpoint drop (n : nat) (s : string) : string :=
  match n, s with
  | O, _ => s
  | S n', String _ rest => drop n' rest
  | S _, EmptyString => EmptyString
  end.

(** [s[:n]] *)
Fixpoint take (n : nat) (s : string) : string :=
  match n, s with
  | O, _ => EmptyString
  | S n', String c rest => String c (take n' rest)
  | S _, EmptyString => EmptyString
  end.

(** ** Recognition-text cleanup: [PDFExtractor._clean_ocr_text] *)

(** One entry of [fixes]: the pattern [(?<!B)c(?!A)] and its replacement.
    [fix_behind] is the class of the negative lookbehind, [fix_ahead] the class
    of the negative lookahead. *)
Record ocr_fix := mk_fix {
  fix_behind : ascii -> bool;
  fix_char : ascii;
  fix_ahead : ascii -> bool;
  fix_new : ascii
}.

Definition fix_hit (f : ocr_fix) (before : option ascii) (c : ascii)
    (after : option ascii) : bool :=
  Ascii.eqb c (fix_char f) && negb (holds (fix_behind f) before)
  && negb (holds (fix_ahead f) after).

(** [re.sub(old, new, text)] for such a pattern.  A match is one character
    long, so the matches never overlap and every position that satisfies the
    pattern is replaced; the lookarounds read the text being scanned, not the
    text being built. *)
Fixpoint re_sub_from (f : ocr_fix) (before : option ascii) (s : string) : string :=
  match s with
  | EmptyString => EmptyString
  | String c rest =>
      String (if fix_hit f before c (get 0 rest) then fix_new f else c)
             (re_sub_from f (Some c) rest)
  end.

Definition re_sub (f : ocr_fix) (text : string) : string := re_sub_from f None text.

Definition fixes : list ocr_fix :=
  [ mk_fix Char.is_digit "0" Char.is_digit "O";
    mk_fix Char.is_digit "1" Char.is_digit "I";
    mk_fix Char.is_dollar "$" Char.is_digit "S";
    mk_fix Char.is_digit "8" Char.is_digit "B";
    mk_fix Char.is_digit "5" Char.is_digit "S" ].

Definition _clean_ocr_text (text : string) : string :=
  fold_left (fun text f => re_sub f text) fixes text.

(** A pass that turns a digit into a letter that is no currency glyph. *)
Definition digit_fix (f : ocr_fix) : Prop :=
  Char.is_digit (fix_char f) = true /\ Char.is_digit (fix_new f) = false
  /\ Char.is_dollar (fix_new f) = false.

(** A digit among 0, 1, 5, 8 with no digit on either side. *)
Definition lone_at (text : string) (i : nat) : bool :=
  match get i text with
  | Some c =>
      (Ascii.eqb c "0" || Ascii.eqb c "1" || Ascii.eqb c "5" || Ascii.eqb c "8")
      && negb (holds Char.is_digit (prev_char text i))
      && negb (holds Char.is_digit (get (S i) text))
  | None => false
  end.

(** A currency glyph that is not immediately followed by a digit. *)
Definition bare_currency_at (text : string) (i : nat) : bool :=
  holds Char.is_dollar (get i text) && negb (holds Char.is_digit (get (S i) text)).

(** ** Python results *)

Inductive exn := ValueError | AttributeError | OtherError.

(** The result of evaluating a Python expression: a value or a raised
    exception. *)
Inductive outcome (A : Type) : Type :=
  | Returns (a : A)
  | Raises (e : exn).

Arguments Returns {A} a.
Arguments Raises {A} e.

(** ** [str] methods used by the source *)

Definition is_empty (s : string) : bool :=
  match s with
  | EmptyString => true
  | String _ _ => false
  end.

Fixpoint lstrip (s : string) : string :=
  match s with
  | EmptyString => EmptyString
  | String c rest => if Char.is_space c then lstrip rest else s
  end.

Fixpoint rstrip (s : string) : string :=
  match s with
  | EmptyString => EmptyString
  | String c rest =>
      let rest' := rstrip rest in
      if is_empty rest' && Char.is_space c then EmptyString else String c rest'
  end.

(** [s.strip()] *)
Definition strip (s : string) : string := rstrip (lstrip s).

(** [s.replace(old, new)] for a one-character [old]. *)
Fixpoint replace (old : ascii) (new : string) (s : string) : string :=
  match s with
  | EmptyString => EmptyString
  | String c rest =>
      if Ascii.eqb c old then new ++ replace old new rest
      else String c (replace old new rest)
  end.

(** [re.sub("[^...]", "", s)]: the characters outside the class [keep] are
    deleted. *)
Fixpoint re_sub_delete (keep : ascii -> bool) (s : string) : string :=
  match s with
  | EmptyString => EmptyString
  | String c rest =>
      if keep c then String c (re_sub_delete keep rest) else re_sub_delete keep rest
  end.

(** The class [[\d.,]]. *)
Definition numeral_char (c : ascii) : bool :=
  Char.is_digit c || Ascii.eqb c "." || Ascii.eqb c ",".

(** ** [float(s)] on numerals *)

Fixpoint all_digits (s : string) : bool :=
  match s with
  | EmptyString => true
  | String c rest => Char.is_digit c && all_digits rest
  end.

Definition digit_value (c : ascii) : N := (Char.code c - 48)%N.

Fixpoint digits_value (acc : N) (s : string) : N :=
  match s with
  | EmptyString => acc
  | String c rest => digits_value (10 * acc + digit_value c) rest
  end.

Fixpoint pow10 (k : nat) : positive :=
  match k with
  | O => 1%positive
  | S k' => (10 * pow10 k')%positive
  end.

(** The digits before the first ".", and the text after it when there is
    one. *)
Fixpoint split_point (s : string) : string * option string :=
  match s with
  | EmptyString => (EmptyString, None)
  | String c rest =>
      if Ascii.eqb c "." then (EmptyString, Some rest)
      else let (ip, fp) := split_point rest in (String c ip, fp)
  end.

(** [float(s)] on the strings that reach it in [extract_settlement], which
    only hold digits and "." (lemma [float_argument]): [float] accepts [D+],
    [D+.D*] and [.D+] and raises [ValueError] on the rest (the empty string,
    a lone ".", a second ".").  The value is the decimal number written,
    kept exactly: the rounding of [float] to the nearest binary64 number, and
    [inf] for numerals beyond its range, are left out. *)
Definition float (s : string) : outcome Q :=
  match split_point s with
  | (ip, None) =>
      if all_digits ip && negb (is_empty ip)
      then Returns (Qmake (Z.of_N (digits_value 0 ip)) 1)
      else Raises ValueError
  | (ip, Some fp) =>
      if all_digits ip && all_digits fp && negb (is_empty ip && is_empty fp)
      then Returns (Qmake (Z.of_N (digits_value 0 (ip ++ fp)))
                          (pow10 (String.length fp)))
      else Raises ValueError
  end.

(** ** Regular expressions: the fragment of [re] used by PENALTY_PATTERNS *)

Module Re.

(** A member of a bracketed set. *)
Inductive item :=
  | IChar (c : ascii)
  | IDigit
  | ISpace.

(** What matches exactly one character. *)
Inductive atom :=
  | Lit (c : ascii)
  | Digit
  | Space
  | Dot
  | OneOf (items : list item).

(** As in the table, [+], [*], [*?] and [{n}] are applied to atoms only;
    [Group] is capturing group 1 and [(?:...)] is plain sequencing. *)
Inductive regex :=
  | Atom (a : atom)
  | Eps
  | Seq (r1 r2 : regex)
  | Opt (r : regex)
  | Plus (a : atom)
  | Star (a : atom)
  | LazyStar (a : atom)
  | Rep (n : nat) (a : atom)
  | Group (r : regex).

Definition char_matches (ignorecase : bool) (p c : ascii) : bool :=
  if ignorecase then Ascii.eqb (Char.lower c) (Char.lower p) else Ascii.eqb c p.

Definition item_matches (ignorecase : bool) (it : item) (c : ascii) : bool :=
  match it with
  | IChar p => char_matches ignorecase p c
  | IDigit => Char.is_digit c
  | ISpace => Char.is_space c
  end.

Definition atom_matches (ignorecase : bool) (a : atom) (c : ascii) : bool :=
  match a with
  | Lit p => char_matches ignorecase p c
  | Digit => Char.is_digit c
  | Space => Char.is_space c
  | Dot => negb (Char.is_newline c)
  | OneOf items => existsb (fun it => item_matches ignorecase it c) items
  end.

(** The span of group 1, in characters from the start of the match. *)
Definition span := (nat * nat)%type.

Section Matcher.
Variable ignorecase : bool.
Variable R : Type.

(** Greedy [a*]: take as many characters as possible, give one back at a
    time while the rest of the pattern fails. *)
Fixpoint star_greedy (a : atom) (k : string -> nat -> option R)
    (s : string) (i : nat) : option R :=
  match s with
  | String c rest =>
      if atom_matches ignorecase a c then
        match star_greedy a k rest (S i) with
        | Some r => Some r
        | None => k s i
        end
      else k s i
  | EmptyString => k s i
  end.

(** Lazy [a*?]: try the rest of the pattern first, take one more
    character each time it fails. *)
Fixpoint star_lazy (a : atom) (k : string -> nat -> option R)
    (s : string) (i : nat) : option R :=
  match k s i with
  | Some r => Some r
  | None =>
      match s with
      | String c rest =>
          if atom_matches ignorecase a c then star_lazy a k rest (S i) else None
      | EmptyString => None
      end
  end.

(** [a{n}] *)
Fixpoint repeat_exact (a : atom) (n : nat) (k : string -> nat -> option R)
    (s : string) (i : nat) : option R :=
  match n with
  | O => k s i
  | S n' =>
      match s with
      | String c rest =>
          if atom_matches ignorecase a c then repeat_exact a n' k rest (S i)
          else None
      | EmptyString => None
      end
  end.

(** Backtracking matcher in continuation-passing style: [rmatch r s i g k]
    matches [r] at the front of [s], [i] characters after the start of
    the match, and hands the rest of the text to [k]; the first
    alternative that makes [k] succeed wins. *)
Fixpoint rmatch (r : regex) (s : string) (i : nat) (g : option span)
    (k : string -> nat -> option span -> option R) : option R :=
  match r with
  | Atom a =>
      match s with
      | String c rest =>
          if atom_matches ignorecase a c then k rest (S i) g else None
      | EmptyString => None
      end
  | Eps => k s i g
  | Seq r1 r2 => rmatch r1 s i g (fun s' i' g' => rmatch r2 s' i' g' k)
  | Opt r1 =>
      match rmatch r1 s i g k with
      | Some x => Some x
      | None => k s i g
      end
  | Plus a =>
      match s with
      | String c rest =>
          if atom_matches ignorecase a c
          then star_greedy a (fun s' i' => k s' i' g) rest (S i)
          else None
      | EmptyString => None
      end
  | Star a => star_greedy a (fun s' i' => k s' i' g) s i
  | LazyStar a => star_lazy a (fun s' i' => k s' i' g) s i
  | Rep n a => repeat_exact a n (fun s' i' => k s' i' g) s i
  | Group r1 => rmatch r1 s i g (fun s' i' _ => k s' i' (Some (i, i')))
  end.

End Matcher.

Arguments star_greedy ignorecase {R} a k s i.
Arguments star_lazy ignorecase {R} a k s i.
Arguments repeat_exact ignorecase {R} a n k s i.
Arguments rmatch ignorecase {R} r s i g k.

(** A match object, reduced to what the source reads from it:
    [match.group(1)], [None] when the group took no part in the match. *)
Record match_obj := { group1 : option string }.

(** A match starting at the first character of [s]. *)
Definition match_here (ignorecase : bool) (r : regex) (s : string)
    : option match_obj :=
  rmatch ignorecase r s 0 None
    (fun _ _ g =>
       Some {| group1 :=
                 option_map (fun sp => take (snd sp - fst sp) (drop (fst sp) s)) g |}).

(** [re.search(pattern, text, flags)]: the leftmost position where the
    pattern matches. *)
Fixpoint search (ignorecase : bool) (r : regex) (text : string)
    : option match_obj :=
  match match_here ignorecase r text with
  | Some m => Some m
  | None =>
      match text with
      | EmptyString => None
      | String _ rest => search ignorecase r rest
      end
  end.

(** A run of literal characters. *)
Fixpoint lit (s : string) : regex :=
  match s with
  | EmptyString => Eps
  | String c rest => Seq (Atom (Lit c)) (lit rest)
  end.

Fixpoint cat (rs : list regex) : regex :=
  match rs with
  | [] => Eps
  | r :: rest => Seq r (cat rest)
  end.

End Re.

(** ** The pattern table: [PENALTY_PATTERNS] of [scraper/config/config.py] *)

Import Re.

(** [[\d,]+(?:\.\d{2})?] *)
Definition amount : regex :=
  Seq (Plus (OneOf [IDigit; IChar ","])) (Opt (Seq (Atom (Lit ".")) (Rep 2 Digit))).

(** [[S5\d,]+(?:\.\d{2})?] *)
Definition amount_s5 : regex :=
  Seq (Plus (OneOf [IChar "S"; IChar "5"; IDigit; IChar ","]))
      (Opt (Seq (Atom (Lit ".")) (Rep 2 Digit))).

(** [\$?(body)] *)
Definition dollars (body : regex) : regex :=
  Seq (Opt (Atom (Lit "$"))) (Group body).

(** [[\s\n]+] *)
Definition ws : regex := Plus (OneOf [ISpace; IChar "010"]).

Definition PENALTY_PATTERNS : list regex :=
  [ cat [lit "administrative penalty of "; dollars amount];
    cat [lit "pay an administrative penalty of "; dollars amount];
    cat [lit "pay a penalty of "; dollars amount];
    cat [lit "penalty of "; dollars amount];
    cat [lit "pay "; dollars amount];
    cat [lit "shall pay "; dollars amount];
    cat [lit "in the amount of "; dollars amount];
    cat [lit "assessed a penalty of "; dollars amount];
    cat [lit "civil penalty of "; dollars amount];
    cat [lit "total penalty of "; dollars amount];
    cat [lit "monetary penalty of "; dollars amount];
    cat [lit "penalties totaling "; dollars amount];
    cat [lit "stipulated penalty of "; dollars amount];
    cat [lit "agrees to pay "; dollars amount];
    cat [lit "shall be assessed "; dollars amount];
    cat [lit "penalty in the amount of "; dollars amount];
    cat [lit "pay a "; dollars amount];
    cat [lit "administrative penalty in the amount of "; dollars amount];
    cat [lit "administrative"; ws; lit "penalty"; ws; lit "of"; ws; dollars amount];
    cat [lit "pay"; ws; lit "an"; ws; lit "administrative"; ws; lit "penalty"; ws;
         lit "of"; ws; dollars amount];
    cat [lit "shall pay a "; dollars amount_s5];
    cat [lit "pay a "; dollars amount_s5];
    cat [lit "pay a "; dollars amount_s5; Star Space; Opt (lit "civil"); Star Space;
         lit "penalty"];
    cat [lit "shall pay"; LazyStar Dot; dollars amount_s5] ].

(** ** Amount recovery: [PDFExtractor.extract_settlement] *)

(** The dictionary [{"text": ...}] returned by [extract_from_pdf]. *)
Record text_data := { text : string }.

(** The body of the [try] block: the cleanup of the captured numeral and its
    conversion. *)
Definition parse_amount (amount_str : string) : outcome Q :=
  let amount_str := replace "S" "5" amount_str in
  let amount_str := replace "s" "5" amount_str in
  let amount_str := re_sub_delete numeral_char amount_str in
  float (replace "," "" amount_str).

(** The [for pattern in PENALTY_PATTERNS] loop.  [except ValueError] resumes
    with the next pattern; any other exception leaves the function. *)
Fixpoint settlement_loop (patterns : list regex) (text : string)
    : outcome (option Q) :=
  match patterns with
  | [] => Returns None
  | pattern :: rest =>
      match search true pattern text with
      | Some m =>
          match group1 m with
          | Some g =>
              match parse_amount (strip g) with
              | Returns amount => Returns (Some amount)
              | Raises ValueError => settlement_loop rest text
              | Raises e => Raises e
              end
          | None => Raises AttributeError
          end
      | None => settlement_loop rest text
      end
  end.

(** [extract_settlement(text_data, url)]; [url] is only logged. *)
Definition extract_settlement (text_data : option text_data) : outcome (option Q) :=
  match text_data with
  | None => Returns None
  | Some d => settlement_loop PENALTY_PATTERNS (text d)
  end.

(** ** The outside world *)

Definition bytes := list Byte.byte.
Definition path := string.

Inductive enhancer := Contrast | Sharpness.

(** [custom_config]: the options handed to the recognition engine. *)
Record ocr_config := {
  oem : nat;
  psm : nat;
  preserve_interword_spaces : nat;
  tessedit_do_invert : nat;
  tessedit_char_blacklist : string
}.

Definition custom_config : ocr_config :=
  {| oem := 3; psm := 6; preserve_interword_spaces := 1; tessedit_do_invert := 0;
     tessedit_char_blacklist := "|~`" |}.

(** The collaborators of the extractor.  Each may raise. *)
Record World := {
  page : Type;
  image : Type;
  (** [requests.get(url).content] *)
  requests_get : string -> outcome bytes;
  (** [pdfplumber.open(stream).pages] *)
  pdfplumber_open : bytes -> outcome (list page);
  (** [page.extract_text()] *)
  extract_text : page -> outcome (option string);
  (** the name picked by [tempfile.NamedTemporaryFile], given the files on disk *)
  temp_name : list path -> outcome path;
  (** whether writing these bytes to this file fails *)
  write_fails : path -> bytes -> bool;
  (** how many of the bytes have reached the file when writing them fails *)
  written_on_failure : path -> bytes -> nat;
  (** [pdf2image.convert_from_path], on the content of the file *)
  convert_from_path : bytes -> nat -> outcome (list image);
  (** [image.convert(mode)] *)
  convert : image -> string -> outcome image;
  (** [ImageEnhance.X(image).enhance(factor)] *)
  enhance : enhancer -> image -> Q -> outcome image;
  (** [pytesseract.image_to_string(image, config=...)] *)
  image_to_string : image -> ocr_config -> outcome string;
  (** whether [os.unlink] fails on this file *)
  unlink_fails : path -> bool
}.

(** Calls that leave the process. *)
Inductive event :=
  | EvGet (url : string)
  | EvPdfplumberOpen
  | EvExtractText (i : nat)
  | EvNamedTemporaryFile
  | EvWrite (p : path)
  | EvConvertFromPath (p : path) (dpi : nat)
  | EvImageToString (i : nat)
  | EvUnlink (p : path).

(** The calls made by the recognition path only. *)
Definition ocr_event (e : event) : bool :=
  match e with
  | EvNamedTemporaryFile | EvWrite _ | EvConvertFromPath _ _ | EvImageToString _
  | EvUnlink _ => true
  | EvGet _ | EvPdfplumberOpen | EvExtractText _ => false
  end.

Definition ocr_invoked (tr : list event) : bool := existsb ocr_event tr.

Definition is_rasterize (e : event) : bool :=
  match e with
  | EvConvertFromPath _ _ => true
  | _ => false
  end.

(** The files on disk with their content, and the calls made so far. *)
Record state := { files : list (path * bytes); trace : list event }.

Definition initial (fs : list (path * bytes)) : state := {| files := fs; trace := [] |}.

(** The state after [evs] more calls. *)
Definition after (st : state) (evs : list event) : state :=
  {| files := files st; trace := (trace st ++ evs)%list |}.

Definition on_disk (p : path) (st : state) : bool :=
  existsb (fun f => String.eqb (fst f) p) (files st).

(** ** Statements with effects and exceptions *)

Definition M (A : Type) : Type := state -> outcome A * state.

Definition ret {A} (a : A) : M A := fun st => (Returns a, st).

Definition raise {A} (e : exn) : M A := fun st => (Raises e, st).

Definition bind {A B} (m : M A) (k : A -> M B) : M B :=
  fun st =>
    match m st with
    | (Returns a, st') => k a st'
    | (Raises e, st') => (Raises e, st')
    end.

Declare Scope py_scope.
Delimit Scope py_scope with py.
Notation "x <- m ;; k" := (bind m (fun x => k))
  (at level 61, m at next level, right associativity) : py_scope.
Notation "m ;;; k" := (bind m (fun _ => k))
  (at level 61, right associativity) : py_scope.
Open Scope py_scope.

(** [try: m except Exception as e: h e] *)
Definition try_except {A} (m : M A) (h : exn -> M A) : M A :=
  fun st =>
    match m st with
    | (Returns a, st') => (Returns a, st')
    | (Raises e, st') => h e st'
    end.

(** [try: m finally: f]; an exception of [f] replaces the result of [m]. *)
Definition try_finally {A} (m : M A) (f : M unit) : M A :=
  fun st =>
    match m st with
    | (r, st') =>
        match f st' with
        | (Returns _, st'') => (r, st'')
        | (Raises e, st'') => (Raises e, st'')
        end
    end.

Definition record (e : event) : M unit := fun st => (Returns tt, after st [e]).

Definition lift {A} (o : outcome A) : M A := fun st => (o, st).

(** An outside call: recorded, then answered by the world. *)
Definition call {A} (e : event) (o : outcome A) : M A := record e ;;; lift o.

Definition get_files : M (list (path * bytes)) := fun st => (Returns (files st), st).

Definition set_files (fs : list (path * bytes)) : M unit :=
  fun st => (Returns tt, {| files := fs; trace := trace st |}).

Definition remove_file (p : path) (fs : list (path * bytes)) : list (path * bytes) :=
  filter (fun f => negb (String.eqb (fst f) p)) fs.

Fixpoint lookup_file (p : path) (fs : list (path * bytes)) : option bytes :=
  match fs with
  | [] => None
  | (q, b) :: rest => if String.eqb q p then Some b else lookup_file p rest
  end.

(** ** File-system calls *)

(** [tempfile.NamedTemporaryFile(suffix=".pdf", delete=False)]: an empty file
    under a name that is not yet on disk. *)
Definition NamedTemporaryFile (w : World) : M path :=
  fs <- get_files ;;
  p <- call EvNamedTemporaryFile (temp_name w (map fst fs)) ;;
  if existsb (fun f => String.eqb (fst f) p) fs then raise OtherError
  else set_files ((p, []) :: fs) ;;; ret p.

(** [tmp_pdf.write(data)], with the flush on leaving the [with] block.  A
    failing write (a full disk, say) may leave some first bytes in the file. *)
Definition write (w : World) (p : path) (data : bytes) : M unit :=
  record (EvWrite p) ;;;
  fs <- get_files ;;
  if write_fails w p data
  then set_files ((p, firstn (written_on_failure w p data) data) :: remove_file p fs) ;;;
       raise OtherError
  else set_files ((p, data) :: remove_file p fs).

(** [os.unlink(p)] *)
Definition unlink (w : World) (p : path) : M unit :=
  record (EvUnlink p) ;;;
  fs <- get_files ;;
  if unlink_fails w p || negb (existsb (fun f => String.eqb (fst f) p) fs)
  then raise OtherError
  else set_files (remove_file p fs).

(** [convert_from_path(p, dpi=dpi)] *)
Definition rasterize (w : World) (p : path) (dpi : nat) : M (list (image w)) :=
  fs <- get_files ;;
  match lookup_file p fs with
  | Some b => call (EvConvertFromPath p dpi) (convert_from_path w b dpi)
  | None => record (EvConvertFromPath p dpi) ;;; raise OtherError
  end.

(** ** Structured extraction: [PDFExtractor._extract_with_pdfplumber] *)

Definition newline : string := String "010" EmptyString.

(** The [for i, page in enumerate(pdf.pages, 1)] loop. *)
Fixpoint plumber_loop (w : World) (pages : list (page w)) (i : nat) (text : string)
    : M string :=
  match pages with
  | [] => ret text
  | pg :: rest =>
      page_text <- call (EvExtractText i) (extract_text w pg) ;;
      match page_text with
      | Some t =>
          if is_empty t then plumber_loop w rest (S i) text
          else plumber_loop w rest (S i) (text ++ t ++ newline)
      | None => plumber_loop w rest (S i) text
      end
  end.

Definition _extract_with_pdfplumber (w : World) (pdf_content : bytes)
    : M (option string) :=
  try_except
    (pages <- call EvPdfplumberOpen (pdfplumber_open w pdf_content) ;;
     text <- plumber_loop w pages 1 EmptyString ;;
     ret (Some (strip text)))
    (fun _ => ret None).

(** ** Recognition-based extraction: [PDFExtractor._extract_with_ocr] *)

(** The body of the per-page [try]. *)
Definition ocr_page (w : World) (i : nat) (img : image w) (pages_text : list string)
    : M (list string) :=
  img <- lift (convert w img "L") ;;
  img <- lift (enhance w Contrast img 2) ;;
  img <- lift (enhance w Sharpness img 2) ;;
  page_text <- call (EvImageToString i) (image_to_string w img custom_config) ;;
  if is_empty (strip page_text) then ret pages_text
  else ret (pages_text ++ [page_text])%list.

(** The [for i, image in enumerate(images)] loop; a page that raises is
    skipped. *)
Fixpoint ocr_loop (w : World) (images : list (image w)) (i : nat)
    (pages_text : list string) : M (list string) :=
  match images with
  | [] => ret pages_text
  | img :: rest =>
      pages_text <- try_except (ocr_page w i img pages_text)
                               (fun _ => ret pages_text) ;;
      ocr_loop w rest (S i) pages_text
  end.

Definition _extract_with_ocr (w : World) (pdf_content : bytes) : M (option string) :=
  try_except
    (tmp_pdf_path <- (tmp_pdf <- NamedTemporaryFile w ;;
                      write w tmp_pdf pdf_content ;;;
                      ret tmp_pdf) ;;
     try_finally
       (images <- rasterize w tmp_pdf_path 400 ;;
        pages_text <- ocr_loop w images 0 [] ;;
        match pages_text with
        | [] => ret None
        | _ :: _ => ret (Some (String.concat (newline ++ newline) pages_text))
        end)
       (try_except (unlink w tmp_pdf_path) (fun _ => ret tt)))
    (fun _ => ret None).

(** ** The extractor: [PDFExtractor.extract_from_pdf] *)

(** [len(t.strip()) if t else 0] *)
Definition trimmed_length (t : option string) : nat :=
  match t with
  | Some s => String.length (strip s)
  | None => 0
  end.

(** [t and len(t.strip()) > 200] *)
Definition meaningful (t : option string) : bool :=
  match t with
  | Some s => negb (is_empty s) && Nat.ltb 200 (String.length (strip s))
  | None => false
  end.

(** The statements after the decision gate: the recognition path and its own
    gate. *)
Definition ocr_fallback (w : World) (pdf_content : bytes) : M (option text_data) :=
  ocr_text <- _extract_with_ocr w pdf_content ;;
  match ocr_text with
  | Some o =>
      if meaningful ocr_text then ret (Some {| text := _clean_ocr_text o |})
      else ret None
  | None => ret None
  end.

Definition extract_from_pdf (w : World) (url : string) : M (option text_data) :=
  try_except
    (pdf_content <- call (EvGet url) (requests_get w url) ;;
     pdfplumber_text <- _extract_with_pdfplumber w pdf_content ;;
     match pdfplumber_text with
     | Some t =>
         if meaningful pdfplumber_text then ret (Some {| text := t |})
         else ocr_fallback w pdf_content
     | None => ocr_fallback w pdf_content
     end)
    (fun _ => ret None).

(** ** Notions used to state the properties of [extract_settlement] *)

(** A pattern whose group 1 takes part in every match. *)
Fixpoint sets_group (r : regex) : bool :=
  match r with
  | Group _ => true
  | Seq r1 r2 => sets_group r1 || sets_group r2
  | _ => false
  end.

(** Every character of [s] is in the class [p]. *)
Fixpoint all_chars (p : ascii -> bool) (s : string) : bool :=
  match s with
  | EmptyString => true
  | String c rest => p c && all_chars p rest
  end.

(** What one pattern finds in a text: no match; a match without group 1; a
    match whose numeral does not parse after cleanup; a parsed amount. *)
Inductive finding :=
  | NoMatch
  | NoGroup
  | Unparsable (g : string)
  | Parsed (g : string) (amount : Q).

Definition finding_of (pattern : regex) (text : string) : finding :=
  match search true pattern text with
  | None => NoMatch
  | Some m =>
      match group1 m with
      | None => NoGroup
      | Some g =>
          match parse_amount (strip g) with
          | Returns amount => Parsed g amount
          | Raises _ => Unparsable g
          end
      end
  end.

(** The pattern yields no amount: it does not match, or its numeral does not
    parse. *)
Definition silent (text : string) (pattern : regex) : Prop :=
  forall g amount, finding_of pattern text <> Parsed g amount.

(** ** Notions used to state the properties of the extractor *)

(** The calls made while the pages are recognised. *)
Definition is_page_event (e : event) : bool :=
  match e with
  | EvImageToString _ => true
  | _ => false
  end.

(** ** Texts and worlds used in examples *)

(** A text with digit runs only and a currency glyph before a digit. *)
Definition clean_sample : string := "Pay $500 within 30 days of 2015.".

(** The catch-all phrase with one amount, then the specific phrase with
    another. *)
Definition priority_sample : string :=
  "Respondent shall pay $900 now. An administrative penalty of $500 is due.".

(** The specific phrase of the twelfth pattern, then the catch-all phrase of
    the last pattern with another amount; no pattern before the twelfth
    yields an amount. *)
Definition priority_later_sample : string :=
  "Penalties totaling $500 are due. Respondent shall pay to the Department $900.".

(** The same two phrases, the catch-all phrase now in a wording that the
    fifth pattern finds as well. *)
Definition priority_masked_sample : string :=
  "Respondent shall pay $900 now. Penalties totaling $500 are due.".

Definition tmp0 : path := "/tmp/tmp0.pdf".

(** A world that answers as scripted: the fetch, the structured reader with
    the result of each page, the rasteriser with the result of recognising
    each page, and whether writing and unlinking fail.  A failing write stops
    half-way.  Image conversion and enhancement succeed. *)
Definition scripted
    (fetched : outcome bytes)
    (structured : outcome (list (outcome (option string))))
    (rastered : outcome (list (outcome string)))
    (write_fails unlink_fails : bool) : World :=
  {| page := outcome (option string);
     image := outcome string;
     requests_get := fun _ => fetched;
     pdfplumber_open := fun _ => structured;
     extract_text := fun pg => pg;
     temp_name := fun _ => Returns tmp0;
     write_fails := fun _ _ => write_fails;
     written_on_failure := fun _ data => Nat.div2 (List.length data);
     convert_from_path := fun _ _ => rastered;
     convert := fun img _ => Returns img;
     enhance := fun _ img _ => Returns img;
     image_to_string := fun img _ => img;
     unlink_fails := fun _ => unlink_fails |}.

(** 210 characters of prose. *)
Definition long_text : string :=
  String.concat EmptyString (List.repeat "Lorem ipsu" 21).

(** A pass that cannot touch a digit standing next to a digit: its lookarounds
    exclude digits, or its character is no digit. *)
Definition run_safe (f : ocr_fix) : Prop :=
  (forall c, Char.is_digit c = true -> fix_behind f c = true /\ fix_ahead f c = true)
  \/ Char.is_digit (fix_char f) = false.

(** ** Notions used to state further properties of the extractor *)

(** The text recognised on one page by the body of the per-page [try]:
    absent when a step raises or when the text is blank. *)
Definition recognised (w : World) (img : image w) : option string :=
  match convert w img "L" with
  | Returns img1 =>
      match enhance w Contrast img1 2 with
      | Returns img2 =>
          match enhance w Sharpness img2 2 with
          | Returns img3 =>
              match image_to_string w img3 custom_config with
              | Returns page_text =>
                  if is_empty (strip page_text) then None else Some page_text
              | Raises _ => None
              end
          | Raises _ => None
          end
      | Raises _ => None
      end
  | Raises _ => None
  end.

(** The values that are present, in order. *)
Fixpoint present {A : Type} (l : list (option A)) : list A :=
  match l with
  | [] => []
  | Some a :: rest => a :: present rest
  | None :: rest => present rest
  end.

(** What a page adds to the structured text: its text and a newline, or
    nothing when it has no text. *)
Definition page_line (w : World) (pg : page w) : string :=
  match extract_text w pg with
  | Returns (Some t) => if is_empty t then EmptyString else t ++ newline
  | _ => EmptyString
  end.

(** Two texts of the same length with white space at the same positions. *)
Fixpoint same_spaces (s1 s2 : string) : bool :=
  match s1, s2 with
  | EmptyString, EmptyString => true
  | String a r1, String b r2 =>
      Bool.eqb (Char.is_space a) (Char.is_space b) && same_spaces r1 r2
  | _, _ => false
  end.

(** The texts of a list, one after the other. *)
Fixpoint flatten (l : list string) : string :=
  match l with
  | [] => EmptyString
  | s :: rest => s ++ flatten rest
  end.

(** [page.extract_text()] returns on this page. *)
Definition page_reads (w : World) (pg : page w) : bool :=
  match extract_text w pg with
  | Returns _ => true
  | Raises _ => false
  end.

(** ** Notions used to state further properties of [extract_settlement] *)

(** [derives ic r u c c']: the pattern [r] can match exactly the text [u];
    [c] is the text captured by group 1 before, [c'] after. *)
Inductive derives (ic : bool) : regex -> string -> option string -> option string -> Prop :=
  | D_atom a x c :
      atom_matches ic a x = true -> derives ic (Atom a) (String x EmptyString) c c
  | D_eps c : derives ic Eps EmptyString c c
  | D_seq r1 r2 u1 u2 c c1 c2 :
      derives ic r1 u1 c c1 -> derives ic r2 u2 c1 c2 ->
      derives ic (Seq r1 r2) (u1 ++ u2) c c2
  | D_opt r u c c' : derives ic r u c c' -> derives ic (Opt r) u c c'
  | D_opt_skip r c : derives ic (Opt r) EmptyString c c
  | D_plus a u c :
      is_empty u = false -> all_chars (atom_matches ic a) u = true ->
      derives ic (Plus a) u c c
  | D_star a u c :
      all_chars (atom_matches ic a) u = true -> derives ic (Star a) u c c
  | D_lazy a u c :
      all_chars (atom_matches ic a) u = true -> derives ic (LazyStar a) u c c
  | D_rep n a u c :
      String.length u = n -> all_chars (atom_matches ic a) u = true ->
      derives ic (Rep n a) u c c
  | D_group r u c c' : derives ic r u c c' -> derives ic (Group r) u c (Some u).

(** The bodies of the capturing groups of a pattern. *)
Fixpoint groups (r : regex) : list regex :=
  match r with
  | Seq r1 r2 => (groups r1 ++ groups r2)%list
  | Opt r1 => groups r1
  | Group r1 => r1 :: groups r1
  | _ => []
  end.

(** [v] occurs in [u]. *)
Definition occurs_in (v u : string) : Prop :=
  exists pre post, u = pre ++ v ++ post.

(** The characters of the class [[S5\d,]] under [re.IGNORECASE]. *)
Definition numeral_s5 (c : ascii) : bool :=
  Char.is_digit c || Ascii.eqb c "," || Ascii.eqb c "S" || Ascii.eqb c "s".

(** A numeral as the groups of the table capture it: one or more characters
    of [[S5\d,]], then nothing or "." and two digits. *)
Definition numeral_shape (v : string) : Prop :=
  exists d f,
    v = d ++ f /\ is_empty d = false /\ all_chars numeral_s5 d = true
    /\ (f = EmptyString
        \/ exists x y, f = String "." (String x (String y EmptyString))
                       /\ Char.is_digit x = true /\ Char.is_digit y = true).

(** The text with every ASCII capital replaced by its small letter. *)
Fixpoint lowers (s : string) : string :=
  match s with
  | EmptyString => EmptyString
  | String c rest => String (Char.lower c) (lowers rest)
  end.

(** The text of a span of [s0]: [s0[b:e]], as [match_here] reads group 1. *)
Definition captured (s0 : string) (g : option span) : option string :=
  option_map (fun sp => take (snd sp - fst sp) (drop (fst sp) s0)) g.

(** The numeral after the cleanup of [extract_settlement], as handed to
    [float]. *)
Definition cleaned (amount_str : string) : string :=
  replace "," ""
    (re_sub_delete numeral_char (replace "s" "5" (replace "S" "5" amount_str))).

(** What one character of the captured numeral becomes in [cleaned]. *)
Definition piece (c : ascii) : string :=
  if Ascii.eqb c "S" || Ascii.eqb c "s" then "5"
  else if Char.is_digit c || Ascii.eqb c "." then String c EmptyString
  else EmptyString.

(** Two optional results that are both absent, or both present and related. *)
Definition orel {A B : Type} (rel : A -> B -> Prop) (x : option A) (y : option B)
    : Prop :=
  match x, y with
  | None, None => True
  | Some a, Some b => rel a b
  | _, _ => False
  end.

(** The second match captures the first one's text in small letters. *)
Definition lowered_match (m1 m2 : match_obj) : Prop :=
  group1 m2 = option_map lowers (group1 m1).

(** ** The scraper: [scraper/dnr_scraper.py] *)

(** [s.split(sep)] for a separator that is not empty.  [skip] counts the
    characters of a separator just found that are still to be passed,
    [piece] is the piece being read. *)
Fixpoint split_from (sep : string) (skip : nat) (piece : string) (s : string)
    : list string :=
  match s with
  | EmptyString => [piece]
  | String c rest =>
      match skip with
      | S k => split_from sep k piece rest
      | O =>
          if String.prefix sep s
          then piece :: split_from sep (String.length sep - 1) EmptyString rest
          else split_from sep 0 (piece ++ String c EmptyString) rest
      end
  end.

Definition str_split (sep s : string) : list string := split_from sep 0 EmptyString s.

(** [l[i]]; an index out of range raises. *)
Definition getitem {A : Type} (l : list A) (i : nat) : outcome A :=
  match nth_error l i with
  | Some a => Returns a
  | None => Raises OtherError
  end.

(** The white space that [int] accepts around a numeral: TAB, LF, VT, FF, CR,
    SPACE, NEL and NBSP. *)
Definition int_space (c : ascii) : bool :=
  (((9 <=? Char.code c) && (Char.code c <=? 13)) || (Char.code c =? 32)
   || (Char.code c =? 133) || (Char.code c =? 160))%N.

Fixpoint lstrip_by (p : ascii -> bool) (s : string) : string :=
  match s with
  | EmptyString => EmptyString
  | String c rest => if p c then lstrip_by p rest else s
  end.

Fixpoint rstrip_by (p : ascii -> bool) (s : string) : string :=
  match s with
  | EmptyString => EmptyString
  | String c rest =>
      let rest' := rstrip_by p rest in
      if is_empty rest' && p c then EmptyString else String c rest'
  end.

(** The default of [sys.get_int_max_str_digits()]. *)
Definition max_str_digits : nat := 4300.

(** The digits of a numeral, with single underscores between digits: the
    value, and the number of digits. *)
Fixpoint int_digits (after_digit : bool) (acc : Z) (count : nat) (s : string)
    : outcome (Z * nat) :=
  match s with
  | EmptyString => if after_digit then Returns (acc, count) else Raises ValueError
  | String c rest =>
      if Char.is_digit c
      then int_digits true (10 * acc + Z.of_N (digit_value c)) (S count) rest
      else if Ascii.eqb c "_" && after_digit then int_digits false acc count rest
      else Raises ValueError
  end.

(** [int(s)] for a string [s]: white space around, an optional sign, digits. *)
Definition int (s : string) : outcome Z :=
  let t := rstrip_by int_space (lstrip_by int_space s) in
  let (negative, body) :=
    match t with
    | String c rest =>
        if Ascii.eqb c "-" then (true, rest)
        else if Ascii.eqb c "+" then (false, rest)
        else (false, t)
    | EmptyString => (false, t)
    end in
  match int_digits false 0 0 body with
  | Returns (n, count) =>
      if Nat.ltb max_str_digits count then Raises ValueError
      else Returns (if negative then (- n)%Z else n)
  | Raises e => Raises e
  end.

(** A [td] of the results table: its text, and for its first [a] element, if
    any, the [href] attribute, if any. *)
Record cell := { cell_text : string; cell_anchor : option (option string) }.

(** A [tr] of the results table: its [td] elements. *)
Definition row := list cell.

(** [link_col['href']]; a missing attribute raises. *)
Definition href_of (link_col : option string) : outcome string :=
  match link_col with
  | Some href => Returns href
  | None => Raises OtherError
  end.

(** The fields given to [Violation(...)]. *)
Record Violation := {
  defendant : string;
  plaintiff : string;
  year : Z;
  settlement : option Q;
  violation_type : string;
  data_source : string;
  link : string;
  notes : string
}.

Definition base_url : string := "https://programs.iowadnr.gov/documentsearch".

Definition search_url : string := base_url ++ "/Home/Search".

(** [ViolationType.ENVIRONMENTAL] *)
Definition ENVIRONMENTAL : string := "environmental".

(** [f"{self.base_url}/Home/{link_col['href'].split('./')[-1]}"] *)
Definition download_url_of (href : string) : string :=
  base_url ++ "/Home/" ++ List.last (str_split "./" href) EmptyString.

(** Sequencing of two results. *)
Definition and_then {A B : Type} (o : outcome A) (k : A -> outcome B) : outcome B :=
  match o with
  | Returns a => k a
  | Raises e => Raises e
  end.

(** [int(cols[2].text.strip().split("/")[2])] *)
Definition year_of (cols : row) : outcome Z :=
  and_then (getitem cols 2) (fun col2 =>
  and_then (getitem (str_split "/" (strip (cell_text col2))) 2) int).

(** [DNRScraper._process_row]; [cols] is [row.find_all("td")]. *)
Definition _process_row (w : World) (cols : row) : M (option Violation) :=
  try_except
    (if Nat.ltb (List.length cols) 6 then ret None
     else
       col0 <- lift (getitem cols 0) ;;
       match cell_anchor col0 with
       | None => ret None
       | Some link_col =>
           href <- lift (href_of link_col) ;;
           let download_url := download_url_of href in
           col5 <- lift (getitem cols 5) ;;
           let defendant := strip (cell_text col5) in
           text_data <- extract_from_pdf w download_url ;;
           match text_data with
           | None => ret None
           | Some _ =>
               settlement <- lift (extract_settlement text_data) ;;
               year <- lift (year_of cols) ;;
               col4 <- lift (getitem cols 4) ;;
               ret (Some {| defendant := defendant;
                            plaintiff := "Iowa Department of Natural Resources";
                            year := year;
                            settlement := settlement;
                            violation_type := ENVIRONMENTAL;
                            data_source := search_url;
                            link := download_url;
                            notes := strip (cell_text col4) |})
           end
       end)
    (fun _ => ret None).

(** The browser at work: the search form of [search_documents], the wait for
    the results table, and the result pages it can reach, in order.  A page is
    what [BeautifulSoup(driver.page_source)] finds: no table with the id
    [ResultsTable], or the [tr] elements of that table. *)
Record Browser := {
  search_form : outcome unit;
  results_table : outcome unit;
  first_page : outcome (option (list row));
  next_pages : list (outcome (option (list row)))
}.

(** The [for row in table.find_all("tr")[1:]] loop, from the current values
    of [results] and [processed]. *)
Fixpoint rows_loop (w : World) (results_limit : Z) (rows : list row)
    (results : list Violation) (processed : Z) : M (list Violation * Z) :=
  match rows with
  | [] => ret (results, processed)
  | r :: rest =>
      if (processed >=? results_limit)%Z then ret (results, processed)
      else
        violation <- _process_row w r ;;
        match violation with
        | Some v =>
            rows_loop w results_limit rest (results ++ [v])%list (processed + 1)%Z
        | None => rows_loop w results_limit rest results processed
        end
  end.

(** The [while processed < self.results_limit] loop, on the page shown and
    the pages that follow; [_next_page] succeeds when there is a page to go
    to. *)
Fixpoint pages_loop (w : World) (results_limit : Z)
    (current : outcome (option (list row)))
    (following : list (outcome (option (list row))))
    (results : list Violation) (processed : Z) : M (list Violation) :=
  if (processed <? results_limit)%Z then
    table <- lift current ;;
    match table with
    | None => ret results
    | Some trs =>
        state <- rows_loop w results_limit (List.tl trs) results processed ;;
        let (results, processed) := state in
        if (processed >=? results_limit)%Z then ret results
        else
          match following with
          | [] => ret results
          | next :: rest => pages_loop w results_limit next rest results processed
          end
    end
  else ret results.

(** [results[:n]] *)
Definition slice_to {A : Type} (n : Z) (l : list A) : list A :=
  if (0 <=? n)%Z then firstn (Z.to_nat n) l
  else firstn (List.length l - Z.to_nat (- n)) l.

(** [DNRScraper._process_results] *)
Definition _process_results (w : World) (b : Browser) (results_limit : Z)
    : M (list Violation) :=
  lift (results_table b) ;;;
  results <- pages_loop w results_limit (first_page b) (next_pages b) [] 0%Z ;;
  ret (slice_to results_limit results).

(** [DNRScraper.search_documents] *)
Definition search_documents (w : World) (b : Browser) (results_limit : Z)
    : M (list Violation) :=
  try_except
    (lift (search_form b) ;;; _process_results w b results_limit)
    (fun _ => ret []).

(** The URLs fetched, in order. *)
Fixpoint fetched (tr : list event) : list string :=
  match tr with
  | [] => []
  | EvGet url :: rest => url :: fetched rest
  | _ :: rest => fetched rest
  end.

(** [sep in s] *)
Fixpoint contains (sep s : string) : bool :=
  String.prefix sep s
  || match s with
     | EmptyString => false
     | String _ rest => contains sep rest
     end.

(** The record made by [_process_row] from a row, the URL of its document,
    the amount found and the year read. *)
Definition record_of (cols : row) (download_url : string) (settlement : option Q)
    (year : Z) : Violation :=
  {| defendant := strip (cell_text (nth 5 cols {| cell_text := EmptyString;
                                                  cell_anchor := None |}));
     plaintiff := "Iowa Department of Natural Resources";
     year := year;
     settlement := settlement;
     violation_type := ENVIRONMENTAL;
     data_source := search_url;
     link := download_url;
     notes := strip (cell_text (nth 4 cols {| cell_text := EmptyString;
                                              cell_anchor := None |})) |}.

(** [l1] is [l2] with some elements left out, the order kept. *)
Inductive subsequence {A : Type} : list A -> list A -> Prop :=
  | subsequence_nil : subsequence [] []
  | subsequence_skip (x : A) (l1 l2 : list A) :
      subsequence l1 l2 -> subsequence l1 (x :: l2)
  | subsequence_keep (x : A) (l1 l2 : list A) :
      subsequence l1 l2 -> subsequence (x :: l1) (x :: l2).

(** ** Rows and pages used in examples *)

Definition plain (t : string) : cell := {| cell_text := t; cell_anchor := None |}.

(** A row of the results table: the link to the document, then the type, the
    date, the programme, the notes and the name. *)
Definition order_row (href date : string) : row :=
  [ {| cell_text := "Order"; cell_anchor := Some (Some href) |};
    plain "Administrative Order"; plain date; plain "Air Quality";
    plain " open burning "; plain " ACME Corp " ].

(** The header row of the table has no [td]. *)
Definition header_row : row := [].

(** A document whose structured text is long enough and names a penalty. *)
Definition order_world : World :=
  scripted (Returns [])
    (Returns [Returns (Some (long_text ++ " administrative penalty of $1,500"))])
    (Returns []) false false.

(** Two rows on the first page, one on the second. *)
Definition two_pages : Browser :=
  {| search_form := Returns tt;
     results_table := Returns tt;
     first_page :=
       Returns (Some [header_row; order_row "./Download?id=1" "01/02/2020";
                      order_row "./Download?id=2" "03/04/2021"]);
     next_pages :=
       [Returns (Some [header_row; order_row "./Download?id=3" "05/06/2022"])] |}.

(** One row on the first page; the second page cannot be read. *)
Definition broken_second_page : Browser :=
  {| search_form := Returns tt;
     results_table := Returns tt;
     first_page := Returns (Some [header_row; order_row "./Download?id=1" "01/02/2020"]);
     next_pages := [Raises OtherError] |}.

(** The record expected for [order_row] in [order_world]. *)
Definition order_record (id : string) (y : Z) : Violation :=
  {| defendant := "ACME Corp";
     plaintiff := "Iowa Department of Natural Resources";
     year := y;
     settlement := Some (Qmake 1500 1);
     violation_type := "environmental";
     data_source := "https://programs.iowadnr.gov/documentsearch/Home/Search";
     link := "https://programs.iowadnr.gov/documentsearch/Home/Download?id=" ++ id;
     notes := "open burning" |}.

(** * Properties *)

(** ** Cleanup of recognised text *)

Lemma get_re_sub_from (f : ocr_fix) (s : string) :
  forall before i,
    get i (re_sub_from f before s) =
    option_map
      (fun c =>
         if fix_hit f (match i with O => before | S j => get j s end) c (get (S i) s)
         then fix_new f else c)
      (get i s).
Proof.
  induction s as [|a s IH]; intros before i.
  - destruct i; reflexivity.
  - destruct i as [|i]; simpl.
    + reflexivity.
    + rewrite IH. destruct i; reflexivity.
Qed.

Lemma get_re_sub (f : ocr_fix) (s : string) (i : nat) :
  get i (re_sub f s) =
  option_map
    (fun c => if fix_hit f (prev_char s i) c (get (S i) s) then fix_new f else c)
    (get i s).
Proof.
  unfold re_sub. rewrite get_re_sub_from. destruct i; reflexivity.
Qed.

Lemma re_sub_none (f : ocr_fix) (s : string) (i : nat) :
  get i s = None -> get i (re_sub f s) = None.
Proof. intros H. rewrite get_re_sub, H. reflexivity. Qed.

Lemma re_sub_keeps (f : ocr_fix) (s : string) (i : nat) (c : ascii) :
  get i s = Some c -> Ascii.eqb c (fix_char f) = false ->
  get i (re_sub f s) = Some c.
Proof.
  intros H Hc. rewrite get_re_sub, H. simpl. unfold fix_hit. rewrite Hc. reflexivity.
Qed.

Lemma re_sub_result (f : ocr_fix) (s : string) (i : nat) (c' : ascii) :
  get i (re_sub f s) = Some c' ->
  get i s = Some c' \/ (get i s = Some (fix_char f) /\ c' = fix_new f).
Proof.
  rewrite get_re_sub. destruct (get i s) as [c|]; simpl; [|discriminate].
  unfold fix_hit. destruct (Ascii.eqb c (fix_char f)) eqn:E; simpl.
  - apply Ascii.eqb_eq in E. subst c.
    destruct (negb _ && negb _); intros [= <-]; auto.
  - intros [= <-]. auto.
Qed.

(** A pass that finds nothing to replace returns its input. *)
Lemma re_sub_id (f : ocr_fix) (s : string) :
  (forall i c, get i s = Some c -> fix_hit f (prev_char s i) c (get (S i) s) = false) ->
  re_sub f s = s.
Proof.
  intros H. apply get_correct. intros i. rewrite get_re_sub.
  destruct (get i s) as [c|] eqn:E; simpl; [|reflexivity].
  rewrite (H i c E). reflexivity.
Qed.

Lemma is_digit_neq (c d : ascii) :
  Char.is_digit c = false -> Char.is_digit d = true -> Ascii.eqb c d = false.
Proof.
  intros Hc Hd. destruct (Ascii.eqb c d) eqn:E; [|reflexivity].
  apply Ascii.eqb_eq in E. congruence.
Qed.

Lemma digit_fix_keeps_non_digit (f : ocr_fix) (s : string) (j : nat) :
  digit_fix f ->
  holds Char.is_digit (get j s) = false ->
  holds Char.is_digit (get j (re_sub f s)) = false.
Proof.
  intros (Hd & _ & _) H. destruct (get j s) as [c|] eqn:E.
  - simpl in H. rewrite (re_sub_keeps f s j c E); [exact H|].
    apply is_digit_neq; assumption.
  - rewrite re_sub_none by assumption. reflexivity.
Qed.

Lemma digit_fix_makes_no_dollar (f : ocr_fix) (s : string) (j : nat) :
  digit_fix f ->
  holds Char.is_dollar (get j s) = false ->
  holds Char.is_dollar (get j (re_sub f s)) = false.
Proof.
  intros (_ & _ & Hn) H. destruct (get j (re_sub f s)) as [c'|] eqn:E; [|reflexivity].
  destruct (re_sub_result f s j c' E) as [E' | [_ ->]].
  - rewrite E' in H. exact H.
  - exact Hn.
Qed.

Lemma digit_fix_prev_no_dollar (f : ocr_fix) (s : string) (i : nat) :
  digit_fix f ->
  holds Char.is_dollar (prev_char s i) = false ->
  holds Char.is_dollar (prev_char (re_sub f s) i) = false.
Proof.
  destruct i as [|j]; simpl; [reflexivity|]. apply digit_fix_makes_no_dollar.
Qed.

Lemma digit_fix_keeps_char (f : ocr_fix) (s : string) (i : nat) (c : ascii) :
  digit_fix f -> Char.is_digit c = false ->
  get i s = Some c -> get i (re_sub f s) = Some c.
Proof.
  intros (Hd & _) Hc E. apply re_sub_keeps; [exact E|].
  apply is_digit_neq; assumption.
Qed.

Lemma fixes_unfold (text : string) :
  _clean_ocr_text text =
  re_sub (mk_fix Char.is_digit "5" Char.is_digit "S")
    (re_sub (mk_fix Char.is_digit "8" Char.is_digit "B")
       (re_sub (mk_fix Char.is_dollar "$" Char.is_digit "S")
          (re_sub (mk_fix Char.is_digit "1" Char.is_digit "I")
             (re_sub (mk_fix Char.is_digit "0" Char.is_digit "O") text)))).
Proof. reflexivity. Qed.

(** On a text without lone 0, 1, 5, 8 a lone-digit pass has nothing to do. *)
Lemma lone_pass_id (d l : ascii) (text : string) :
  (d = "0" \/ d = "1" \/ d = "5" \/ d = "8")%char ->
  (forall i, lone_at text i = false) ->
  re_sub (mk_fix Char.is_digit d Char.is_digit l) text = text.
Proof.
  intros Hd Hlone. apply re_sub_id. intros i c E.
  unfold fix_hit; simpl.
  destruct (Ascii.eqb c d) eqn:Ec; [|reflexivity].
  apply Ascii.eqb_eq in Ec. subst c.
  generalize (Hlone i). unfold lone_at. rewrite E.
  destruct Hd as [-> | [-> | [-> | ->]]]; simpl; intros H; exact H.
Qed.

Lemma currency_pass_id (text : string) :
  (forall i, bare_currency_at text i = false) ->
  re_sub (mk_fix Char.is_dollar "$" Char.is_digit "S") text = text.
Proof.
  intros Hbare. apply re_sub_id. intros i c E.
  unfold fix_hit; simpl.
  destruct (Ascii.eqb c "$") eqn:Ec; [|reflexivity].
  generalize (Hbare i). unfold bare_currency_at. rewrite E. simpl.
  unfold Char.is_dollar at 1. rewrite Ec. simpl.
  intros ->. rewrite andb_false_r. reflexivity.
Qed.

(** Checking a property at every position of a text, by computation. *)
Lemma all_positions (P : nat -> bool) (n : nat) :
  forallb (fun i => negb (P i)) (seq 0 n) = true ->
  (forall i, n <= i -> P i = false) ->
  forall i, P i = false.
Proof.
  intros Hall Hout i. destruct (Nat.lt_ge_cases i n) as [Hi | Hi]; [|auto].
  rewrite forallb_forall in Hall.
  specialize (Hall i). rewrite in_seq in Hall.
  destruct (P i); [|reflexivity].
  discriminate Hall. lia.
Qed.

Lemma get_beyond (s : string) (i : nat) : String.length s <= i -> get i s = None.
Proof.
  revert i. induction s as [|a s IH]; intros i H; [destruct i; reflexivity|].
  destruct i as [|i]; simpl in *; [lia|]. apply IH. lia.
Qed.

Lemma lone_at_beyond (text : string) (i : nat) :
  String.length text <= i -> lone_at text i = false.
Proof. intros H. unfold lone_at. rewrite get_beyond by assumption. reflexivity. Qed.

Lemma bare_currency_at_beyond (text : string) (i : nat) :
  String.length text <= i -> bare_currency_at text i = false.
Proof.
  intros H. unfold bare_currency_at. rewrite get_beyond by assumption. reflexivity.
Qed.

(** C7.  On a text with no lone 0, 1, 5 or 8 (a digit with no digit next to
    it) and no currency glyph that is not immediately followed by a digit, the
    cleanup pass changes nothing, so applying it twice gives the same text as
    applying it once. *)
Theorem clean_ocr_text_idempotent_on_clean (text : string) :
  (forall i, lone_at text i = false) ->
  (forall i, bare_currency_at text i = false) ->
  _clean_ocr_text text = text /\
  _clean_ocr_text (_clean_ocr_text text) = _clean_ocr_text text.
Proof.
  intros Hlone Hbare.
  assert (Hid : _clean_ocr_text text = text).
  { rewrite fixes_unfold.
    rewrite (lone_pass_id "0" "O") by auto.
    rewrite (lone_pass_id "1" "I") by auto.
    rewrite currency_pass_id by assumption.
    rewrite (lone_pass_id "8" "B") by auto 6.
    apply lone_pass_id; auto 6. }
  split; [exact Hid|]. rewrite Hid. exact Hid.
Qed.

Lemma clean_ocr_text_idempotent_on_clean_witness :
  _clean_ocr_text clean_sample = clean_sample /\
  _clean_ocr_text (_clean_ocr_text clean_sample) = _clean_ocr_text clean_sample.
Proof.
  apply clean_ocr_text_idempotent_on_clean.
  - apply (all_positions _ 32); [reflexivity|].
    intros i Hi. apply lone_at_beyond. exact Hi.
  - apply (all_positions _ 32); [reflexivity|].
    intros i Hi. apply bare_currency_at_beyond. exact Hi.
Defined.

(** C10.  The cleanup pass is not idempotent on arbitrary text: on "$5" the
    first pass turns the lone 5 into S and leaves the currency glyph, which a
    second pass then turns into S as well. *)
Theorem clean_ocr_text_not_idempotent :
  _clean_ocr_text "$5" = "$S" /\
  _clean_ocr_text (_clean_ocr_text "$5") = "SS" /\
  exists text, _clean_ocr_text (_clean_ocr_text text) <> _clean_ocr_text text.
Proof.
  split; [reflexivity|]. split; [reflexivity|].
  exists "$5". discriminate.
Qed.

(** The third pass replaces a currency glyph that has no currency glyph before
    it and no digit after it. *)
Lemma currency_pass_hit (s : string) (i : nat) :
  get i s = Some "$"%char ->
  holds Char.is_dollar (prev_char s i) = false ->
  holds Char.is_digit (get (S i) s) = false ->
  get i (re_sub (mk_fix Char.is_dollar "$" Char.is_digit "S") s) = Some "S"%char.
Proof.
  intros E Hp Hn. rewrite get_re_sub, E. simpl. unfold fix_hit. simpl.
  rewrite Hp, Hn. reflexivity.
Qed.

(** C8, as the code has it.  A currency glyph that is not immediately followed
    by a digit and not immediately preceded by another currency glyph is
    replaced by the letter S. *)
Theorem clean_ocr_text_bare_currency (text : string) (i : nat) :
  bare_currency_at text i = true ->
  holds Char.is_dollar (prev_char text i) = false ->
  get i (_clean_ocr_text text) = Some "S"%char.
Proof.
  intros Hbare Hprev. unfold bare_currency_at in Hbare.
  apply andb_true_iff in Hbare. destruct Hbare as [Hd Hn].
  apply negb_true_iff in Hn.
  destruct (get i text) as [c|] eqn:E; [|discriminate].
  simpl in Hd. apply Ascii.eqb_eq in Hd. subst c.
  assert (F0 : digit_fix (mk_fix Char.is_digit "0" Char.is_digit "O")) by (repeat split).
  assert (F1 : digit_fix (mk_fix Char.is_digit "1" Char.is_digit "I")) by (repeat split).
  assert (F8 : digit_fix (mk_fix Char.is_digit "8" Char.is_digit "B")) by (repeat split).
  assert (F5 : digit_fix (mk_fix Char.is_digit "5" Char.is_digit "S")) by (repeat split).
  rewrite fixes_unfold.
  apply (digit_fix_keeps_char _ _ _ _ F5); [reflexivity|].
  apply (digit_fix_keeps_char _ _ _ _ F8); [reflexivity|].
  apply currency_pass_hit.
  - apply (digit_fix_keeps_char _ _ _ _ F1); [reflexivity|].
    apply (digit_fix_keeps_char _ _ _ _ F0); [reflexivity | exact E].
  - apply (digit_fix_prev_no_dollar _ _ _ F1).
    apply (digit_fix_prev_no_dollar _ _ _ F0). exact Hprev.
  - apply (digit_fix_keeps_non_digit _ _ _ F1).
    apply (digit_fix_keeps_non_digit _ _ _ F0). exact Hn.
Qed.

Lemma clean_ocr_text_bare_currency_witness :
  get 4 (_clean_ocr_text "Fee $ due") = Some "S"%char.
Proof.
  apply clean_ocr_text_bare_currency; reflexivity.
Defined.

(** C8, as the claim states it, fails: of two adjacent currency glyphs the
    second one is not followed by a digit and is kept. *)
Lemma clean_ocr_text_second_currency_kept :
  ~ (forall text i,
       bare_currency_at text i = true ->
       get i (_clean_ocr_text text) = Some "S"%char).
Proof.
  intros H. specialize (H "$$" 1 eq_refl). discriminate H.
Qed.

(** ** The matcher *)

Section MatcherFacts.
Variable ignorecase : bool.
Variable R : Type.

Lemma star_greedy_calls (a : atom) (k : string -> nat -> option R) (s : string) :
  forall i res, star_greedy ignorecase a k s i = Some res ->
                exists s' i', k s' i' = Some res.
Proof.
  induction s as [|c s IH]; intros i res; simpl.
  - eauto.
  - destruct (atom_matches ignorecase a c); [|eauto].
    destruct (star_greedy ignorecase a k s (S i)) as [x|] eqn:E.
    + intros [= <-]. eauto.
    + eauto.
Qed.

Lemma star_lazy_calls (a : atom) (k : string -> nat -> option R) (s : string) :
  forall i res, star_lazy ignorecase a k s i = Some res ->
                exists s' i', k s' i' = Some res.
Proof.
  induction s as [|c s IH]; intros i res; simpl.
  - destruct (k EmptyString i) eqn:E; [|discriminate]. intros [= <-]. eauto.
  - destruct (k (String c s) i) eqn:E.
    + intros [= <-]. eauto.
    + destruct (atom_matches ignorecase a c); [|discriminate]. eauto.
Qed.

Lemma repeat_exact_calls (a : atom) (k : string -> nat -> option R) (n : nat) :
  forall s i res, repeat_exact ignorecase a n k s i = Some res ->
                  exists s' i', k s' i' = Some res.
Proof.
  induction n as [|n IH]; intros s i res; simpl.
  - eauto.
  - destruct s as [|c s]; [discriminate|].
    destruct (atom_matches ignorecase a c); [|discriminate]. eauto.
Qed.

(** A successful match ends in a call of the continuation; group 1 is set
    there when the pattern sets it or when it was set before. *)
Lemma rmatch_calls (r : regex) :
  forall s i g (k : string -> nat -> option span -> option R) res,
    rmatch ignorecase r s i g k = Some res ->
    exists s' i' g',
      k s' i' g' = Some res
      /\ (sets_group r = true -> g' <> None)
      /\ (g <> None -> g' <> None).
Proof.
  induction r as [a| |r1 IH1 r2 IH2|r1 IH1|a|a|a|n a|r1 IH1];
    intros s i g k res; simpl.
  - destruct s as [|c s]; [discriminate|].
    destruct (atom_matches ignorecase a c); [|discriminate].
    intros H. exists s, (S i), g. repeat split; [exact H | discriminate | auto].
  - intros H. exists s, i, g. repeat split; [exact H | discriminate | auto].
  - intros H. apply IH1 in H. destruct H as (s1 & i1 & g1 & H & S1 & G1).
    apply IH2 in H. destruct H as (s2 & i2 & g2 & H & S2 & G2).
    exists s2, i2, g2. repeat split; [exact H | | auto].
    intros Hs. apply orb_true_iff in Hs. destruct Hs; auto.
  - destruct (rmatch ignorecase r1 s i g k) as [x|] eqn:E.
    + intros [= <-]. apply IH1 in E. destruct E as (s1 & i1 & g1 & H & _ & G1).
      exists s1, i1, g1. repeat split; [exact H | discriminate | exact G1].
    + intros H. exists s, i, g. repeat split; [exact H | discriminate | auto].
  - destruct s as [|c s]; [discriminate|].
    destruct (atom_matches ignorecase a c); [|discriminate].
    intros H. apply star_greedy_calls in H. destruct H as (s' & i' & H).
    exists s', i', g. repeat split; [exact H | discriminate | auto].
  - intros H. apply star_greedy_calls in H. destruct H as (s' & i' & H).
    exists s', i', g. repeat split; [exact H | discriminate | auto].
  - intros H. apply star_lazy_calls in H. destruct H as (s' & i' & H).
    exists s', i', g. repeat split; [exact H | discriminate | auto].
  - intros H. apply repeat_exact_calls in H. destruct H as (s' & i' & H).
    exists s', i', g. repeat split; [exact H | discriminate | auto].
  - intros H. apply IH1 in H. destruct H as (s1 & i1 & g1 & H & _ & _).
    exists s1, i1, (Some (i, i1)). repeat split; [exact H | discriminate | discriminate].
Qed.

End MatcherFacts.

Lemma match_here_group (ic : bool) (r : regex) (s : string) (m : match_obj) :
  sets_group r = true -> match_here ic r s = Some m ->
  exists g, group1 m = Some g.
Proof.
  intros Hs H. unfold match_here in H. apply rmatch_calls in H.
  destruct H as (s' & i' & g' & H & S1 & _). injection H as <-.
  destruct g' as [sp|]; [simpl; eauto | exfalso; apply S1; auto].
Qed.

Lemma search_group (ic : bool) (r : regex) (text : string) (m : match_obj) :
  sets_group r = true -> search ic r text = Some m ->
  exists g, group1 m = Some g.
Proof.
  intros Hs. induction text as [|c text IH]; simpl.
  - destruct (match_here ic r EmptyString) as [x|] eqn:E; [|discriminate].
    intros [= <-]. eapply match_here_group; eauto.
  - destruct (match_here ic r (String c text)) as [x|] eqn:E.
    + intros [= <-]. eapply match_here_group; eauto.
    + exact IH.
Qed.

(** [re.search] returns the match at the first position where there is one. *)
Lemma search_skips (ic : bool) (r : regex) (pre rest : string) :
  (forall n, n < String.length pre -> match_here ic r (drop n (pre ++ rest)) = None) ->
  search ic r (pre ++ rest) = search ic r rest.
Proof.
  induction pre as [|c pre IH]; intros H; [reflexivity|].
  change (String c pre ++ rest) with (String c (pre ++ rest)) in *.
  cbn [search]. pose proof (H 0 (Nat.lt_0_succ _)) as H0. cbn [drop] in H0.
  rewrite H0. apply IH. intros n Hn. apply (H (S n)). simpl. lia.
Qed.

Lemma search_here (ic : bool) (r : regex) (text : string) (m : match_obj) :
  match_here ic r text = Some m -> search ic r text = Some m.
Proof. intros H. destruct text; simpl; rewrite H; reflexivity. Qed.

(** ** Amount recovery *)

Lemma float_raises (s : string) (e : exn) : float s = Raises e -> e = ValueError.
Proof.
  unfold float. destruct (split_point s) as [ip [fp|]].
  - destruct (_ && _); [discriminate|]. intros [= <-]. reflexivity.
  - destruct (_ && _); [discriminate|]. intros [= <-]. reflexivity.
Qed.

Lemma parse_amount_raises (s : string) (e : exn) :
  parse_amount s = Raises e -> e = ValueError.
Proof. apply float_raises. Qed.

(** What reaches [float] only holds digits and ".", the strings on which
    [float] is modelled. *)
Lemma float_argument (s : string) :
  all_chars (fun c => Char.is_digit c || Ascii.eqb c ".")
    (replace "," "" (re_sub_delete numeral_char s)) = true.
Proof.
  induction s as [|c s IH]; [reflexivity|].
  cbn [re_sub_delete]. unfold numeral_char at 1.
  destruct (Char.is_digit c) eqn:Hd; cbn [orb].
  - cbn [replace]. destruct (Ascii.eqb c ",") eqn:Hc.
    + exact IH.
    + cbn [all_chars]. rewrite Hd, IH. reflexivity.
  - destruct (Ascii.eqb c ".") eqn:Hp; cbn [orb].
    + cbn [replace]. destruct (Ascii.eqb c ",") eqn:Hc; [exact IH|].
      cbn [all_chars]. rewrite Hd, Hp, IH. reflexivity.
    + destruct (Ascii.eqb c ",") eqn:Hc; [|exact IH].
      cbn [replace]. rewrite Hc. exact IH.
Qed.

Lemma table_sets_group : forallb sets_group PENALTY_PATTERNS = true.
Proof. reflexivity. Qed.

(** One turn of the loop, by what the pattern finds. *)
Lemma settlement_loop_step (pattern : regex) (rest : list regex) (text : string) :
  sets_group pattern = true ->
  settlement_loop (pattern :: rest) text =
  match finding_of pattern text with
  | Parsed _ amount => Returns (Some amount)
  | _ => settlement_loop rest text
  end
  /\ finding_of pattern text <> NoGroup.
Proof.
  intros Hs. unfold finding_of. simpl.
  destruct (search true pattern text) as [m|] eqn:E; [|split; [reflexivity|discriminate]].
  destruct (search_group _ _ _ _ Hs E) as [g Hg]. rewrite Hg.
  destruct (parse_amount (strip g)) as [amount|e] eqn:P.
  - split; [reflexivity|discriminate].
  - apply parse_amount_raises in P. subst e. split; [reflexivity|discriminate].
Qed.

Lemma settlement_loop_silent (pre rest : list regex) (text : string) :
  forallb sets_group pre = true ->
  Forall (silent text) pre ->
  settlement_loop (pre ++ rest)%list text = settlement_loop rest text.
Proof.
  induction pre as [|p pre IH]; intros Hs Hq; [reflexivity|].
  simpl in Hs. apply andb_true_iff in Hs. destruct Hs as [Hp Hs].
  inversion Hq as [|? ? Hsil Hq']; subst.
  change ((p :: pre) ++ rest)%list with (p :: (pre ++ rest)%list).
  destruct (settlement_loop_step p (pre ++ rest)%list text Hp) as [-> _].
  destruct (finding_of p text) as [| |g|g a] eqn:F; auto.
  exfalso. apply (Hsil g a). exact F.
Qed.

Lemma settlement_loop_returns (patterns : list regex) (text : string) :
  forallb sets_group patterns = true ->
  exists r, settlement_loop patterns text = Returns r.
Proof.
  induction patterns as [|p rest IH]; intros Hs; [simpl; eauto|].
  simpl in Hs. apply andb_true_iff in Hs. destruct Hs as [Hp Hs].
  destruct (settlement_loop_step p rest text Hp) as [-> _].
  destruct (finding_of p text); eauto.
Qed.

Lemma match_here_administrative_penalty (post : string) :
  match_here true (nth 0 PENALTY_PATTERNS Eps)
    ("administrative penalty of $1,234.56" ++ post)
  = Some {| group1 := Some "1,234.56" |}.
Proof. vm_compute. reflexivity. Qed.

Lemma match_here_shall_pay_a (post : string) :
  match_here true (nth 20 PENALTY_PATTERNS Eps)
    ("shall pay a S5,000 civil penalty" ++ post)
  = Some {| group1 := Some "S5,000" |}.
Proof. vm_compute. reflexivity. Qed.

(** C3.  A text in which the first match of the first pattern of the table is
    an occurrence of "administrative penalty of $1,234.56" yields the amount
    1234.56, whatever stands before and after that occurrence. *)
Theorem extract_settlement_administrative_penalty (pre post : string) :
  (forall n, n < String.length pre ->
     match_here true (nth 0 PENALTY_PATTERNS Eps)
       (drop n (pre ++ "administrative penalty of $1,234.56" ++ post)) = None) ->
  extract_settlement
    (Some {| text := pre ++ "administrative penalty of $1,234.56" ++ post |})
  = Returns (Some 1234.56%Q).
Proof.
  intros Hfirst. unfold extract_settlement. cbn [text].
  change PENALTY_PATTERNS
    with (nth 0 PENALTY_PATTERNS Eps :: skipn 1 PENALTY_PATTERNS).
  destruct (settlement_loop_step (nth 0 PENALTY_PATTERNS Eps)
              (skipn 1 PENALTY_PATTERNS)
              (pre ++ "administrative penalty of $1,234.56" ++ post) eq_refl)
    as [-> _].
  unfold finding_of. rewrite (search_skips _ _ _ _ Hfirst).
  rewrite (search_here _ _ _ _ (match_here_administrative_penalty post)).
  reflexivity.
Qed.

(** Checking that a pattern has no match before a position, by computation. *)
Lemma no_match_before (ic : bool) (r : regex) (text : string) (k : nat) :
  forallb (fun n => match match_here ic r (drop n text) with
                    | None => true
                    | Some _ => false
                    end) (seq 0 k) = true ->
  forall n, n < k -> match_here ic r (drop n text) = None.
Proof.
  intros Hall n Hn. rewrite forallb_forall in Hall.
  specialize (Hall n). rewrite in_seq in Hall.
  destruct (match_here ic r (drop n text)); [|reflexivity].
  discriminate Hall. lia.
Qed.

Lemma extract_settlement_administrative_penalty_witness :
  extract_settlement
    (Some {| text := "The respondent is assessed an "
                     ++ "administrative penalty of $1,234.56"
                     ++ " due within 30 days." |})
  = Returns (Some 1234.56%Q).
Proof.
  apply (extract_settlement_administrative_penalty
           "The respondent is assessed an " " due within 30 days.").
  apply no_match_before. vm_compute. reflexivity.
Defined.

(** C2, as the code has it.  A text in which no pattern before
    [shall pay a \$?([S5\d,]+(?:\.\d{2})?)] yields an amount and in which the
    first match of that pattern is an occurrence of
    "shall pay a S5,000 civil penalty" yields 55000: the captured numeral
    "S5,000" becomes "55,000" by the replacement of S by 5, and 55000 once the
    comma is removed. *)
Theorem extract_settlement_s5_numeral (pre post : string) :
  Forall (silent (pre ++ "shall pay a S5,000 civil penalty" ++ post))
    (firstn 20 PENALTY_PATTERNS) ->
  (forall n, n < String.length pre ->
     match_here true (nth 20 PENALTY_PATTERNS Eps)
       (drop n (pre ++ "shall pay a S5,000 civil penalty" ++ post)) = None) ->
  extract_settlement
    (Some {| text := pre ++ "shall pay a S5,000 civil penalty" ++ post |})
  = Returns (Some 55000%Q).
Proof.
  intros Hsilent Hfirst. unfold extract_settlement. cbn [text].
  change PENALTY_PATTERNS
    with (firstn 20 PENALTY_PATTERNS
          ++ nth 20 PENALTY_PATTERNS Eps :: skipn 21 PENALTY_PATTERNS)%list.
  rewrite settlement_loop_silent by (reflexivity || exact Hsilent).
  destruct (settlement_loop_step (nth 20 PENALTY_PATTERNS Eps)
              (skipn 21 PENALTY_PATTERNS)
              (pre ++ "shall pay a S5,000 civil penalty" ++ post) eq_refl)
    as [-> _].
  unfold finding_of. rewrite (search_skips _ _ _ _ Hfirst).
  rewrite (search_here _ _ _ _ (match_here_shall_pay_a post)).
  reflexivity.
Qed.

Lemma silent_check (text : string) (patterns : list regex) :
  forallb (fun p => match finding_of p text with
                    | Parsed _ _ => false
                    | _ => true
                    end) patterns = true ->
  Forall (silent text) patterns.
Proof.
  intros H. apply Forall_forall. intros p Hp g a F.
  rewrite forallb_forall in H. specialize (H p Hp). rewrite F in H. discriminate.
Qed.

Lemma extract_settlement_s5_numeral_witness :
  extract_settlement
    (Some {| text := "Respondent " ++ "shall pay a S5,000 civil penalty" ++ "." |})
  = Returns (Some 55000%Q).
Proof.
  apply (extract_settlement_s5_numeral "Respondent " ".").
  - apply silent_check. vm_compute. reflexivity.
  - apply no_match_before. vm_compute. reflexivity.
Defined.

(** C2, as the claim states it, fails: on the phrase alone no earlier pattern
    matches, and the amount returned is 55000, not 5000. *)
Lemma extract_settlement_s5_numeral_not_5000 :
  ~ (forall pre post,
       Forall (fun p => search true p (pre ++ "shall pay a S5,000 civil penalty" ++ post)
                        = None)
         (firstn 20 PENALTY_PATTERNS) ->
       (forall n, n < String.length pre ->
          match_here true (nth 20 PENALTY_PATTERNS Eps)
            (drop n (pre ++ "shall pay a S5,000 civil penalty" ++ post)) = None) ->
       exists amount,
         extract_settlement
           (Some {| text := pre ++ "shall pay a S5,000 civil penalty" ++ post |})
         = Returns (Some amount)
         /\ (amount == 5000.0)%Q).
Proof.
  intros H. destruct (H "" "") as (amount & Hret & Heq).
  - repeat constructor.
  - intros n Hn. inversion Hn.
  - vm_compute in Hret. injection Hret as <-. vm_compute in Heq. discriminate Heq.
Qed.

(** The loop returns the amount of the first pattern that yields one. *)
Lemma settlement_loop_some (patterns : list regex) (text : string) (amount : Q) :
  forallb sets_group patterns = true ->
  settlement_loop patterns text = Returns (Some amount) <->
  exists pre p post g,
    patterns = (pre ++ p :: post)%list /\ Forall (silent text) pre
    /\ finding_of p text = Parsed g amount.
Proof.
  intros Hs. split.
  - induction patterns as [|p rest IH]; [discriminate|].
    simpl in Hs. apply andb_true_iff in Hs. destruct Hs as [Hp Hs].
    destruct (settlement_loop_step p rest text Hp) as [-> _].
    destruct (finding_of p text) as [| |g|g a] eqn:F.
    1-3: intros H; destruct (IH Hs H) as (pre & q & post & g' & -> & Hpre & Hq);
      exists (p :: pre), q, post, g'; repeat split; auto;
      constructor; auto; intros g0 a0; rewrite F; discriminate.
    intros [= ->]. exists [], p, rest, g. repeat split; auto.
  - intros (pre & p & post & g & -> & Hpre & Hp).
    rewrite forallb_app in Hs. apply andb_true_iff in Hs. destruct Hs as [Hs1 Hs2].
    simpl in Hs2. apply andb_true_iff in Hs2. destruct Hs2 as [Hs2 _].
    rewrite settlement_loop_silent by assumption.
    destruct (settlement_loop_step p post text Hs2) as [-> _].
    rewrite Hp. reflexivity.
Qed.

(** The loop returns nothing exactly when no pattern yields an amount. *)
Lemma settlement_loop_none (patterns : list regex) (text : string) :
  forallb sets_group patterns = true ->
  settlement_loop patterns text = Returns None <-> Forall (silent text) patterns.
Proof.
  intros Hs. split.
  - induction patterns as [|p rest IH]; [constructor|].
    simpl in Hs. apply andb_true_iff in Hs. destruct Hs as [Hp Hs].
    destruct (settlement_loop_step p rest text Hp) as [-> _].
    destruct (finding_of p text) as [| |g|g a] eqn:F.
    1-3: intros H; constructor; auto; intros g0 a0; rewrite F; discriminate.
    discriminate.
  - intros H. rewrite <- (app_nil_r patterns).
    rewrite settlement_loop_silent by assumption. reflexivity.
Qed.

(** C4.  [extract_settlement] returns the amount of the first pattern, in
    table order, whose captured numeral parses after cleanup; a pattern that
    matches with a numeral that does not parse is passed over and the search
    goes on with the patterns after it; the result is absent exactly when no
    pattern of the table yields an amount; no exception leaves the
    function. *)
Theorem extract_settlement_first_parsable (text : string) :
  (forall amount,
     extract_settlement (Some {| text := text |}) = Returns (Some amount) <->
     exists pre p post g,
       PENALTY_PATTERNS = (pre ++ p :: post)%list /\ Forall (silent text) pre
       /\ finding_of p text = Parsed g amount)
  /\ (forall pre p post g,
        PENALTY_PATTERNS = (pre ++ p :: post)%list -> Forall (silent text) pre ->
        finding_of p text = Unparsable g ->
        extract_settlement (Some {| text := text |}) = settlement_loop post text)
  /\ (extract_settlement (Some {| text := text |}) = Returns None <->
      Forall (silent text) PENALTY_PATTERNS)
  /\ (exists r, extract_settlement (Some {| text := text |}) = Returns r).
Proof.
  change (extract_settlement (Some {| text := text |}))
    with (settlement_loop PENALTY_PATTERNS text).
  split; [|split; [|split]].
  - intros amount. apply settlement_loop_some. exact table_sets_group.
  - intros pre p post g Heq Hpre Hp.
    pose proof table_sets_group as Hs. rewrite Heq in Hs |- *.
    rewrite forallb_app in Hs. apply andb_true_iff in Hs. destruct Hs as [Hs1 Hs2].
    simpl in Hs2. apply andb_true_iff in Hs2. destruct Hs2 as [Hs2 _].
    rewrite settlement_loop_silent by assumption.
    destruct (settlement_loop_step p post text Hs2) as [-> _].
    rewrite Hp. reflexivity.
  - apply settlement_loop_none. exact table_sets_group.
  - apply settlement_loop_returns. exact table_sets_group.
Qed.

(** A numeral made of a comma only does not parse; the next pattern that
    matches gives the amount. *)
Example extract_settlement_passes_over_unparsable :
  finding_of (nth 3 PENALTY_PATTERNS Eps) "penalty of $, and shall pay 300"
  = Unparsable ","
  /\ extract_settlement (Some {| text := "penalty of $, and shall pay 300" |})
     = Returns (Some 300%Q).
Proof. split; reflexivity. Qed.

(** C5, as the code has it.  When a pattern of the table yields an amount and
    no pattern before it does, that amount is returned, whatever a pattern
    further down the table finds and wherever in the text the two matches
    are. *)
Theorem extract_settlement_priority (text : string)
    (pre : list regex) (p : regex) (mid : list regex) (q : regex) (post : list regex)
    (gp gq : string) (a b : Q) :
  PENALTY_PATTERNS = (pre ++ p :: mid ++ q :: post)%list ->
  Forall (silent text) pre ->
  finding_of p text = Parsed gp a ->
  finding_of q text = Parsed gq b ->
  extract_settlement (Some {| text := text |}) = Returns (Some a).
Proof.
  intros Heq Hpre Hp _.
  change (extract_settlement (Some {| text := text |}))
    with (settlement_loop PENALTY_PATTERNS text).
  apply settlement_loop_some; [exact table_sets_group|].
  exists pre, p, (mid ++ q :: post)%list, gp. auto.
Qed.

(** The twelfth pattern against the last one; the eleven patterns before the
    twelfth find nothing. *)
Lemma extract_settlement_priority_witness :
  extract_settlement (Some {| text := priority_later_sample |}) = Returns (Some 500%Q).
Proof.
  apply (extract_settlement_priority priority_later_sample
           (firstn 11 PENALTY_PATTERNS) (nth 11 PENALTY_PATTERNS Eps)
           (firstn 11 (skipn 12 PENALTY_PATTERNS))
           (nth 23 PENALTY_PATTERNS Eps) []
           "500" "900" 500%Q 900%Q).
  - reflexivity.
  - apply silent_check. vm_compute. reflexivity.
  - vm_compute. reflexivity.
  - vm_compute. reflexivity.
Defined.

(** C5, as the claim states it, fails: a text can match a specific phrase and
    a catch-all phrase further down the table with another amount, and the
    specific phrase's amount is still not returned, because a looser pattern
    stands before the specific one in the table.  In [priority_masked_sample]
    the twelfth pattern finds 500 and the last pattern finds 900, but the
    fifth pattern finds 900 first. *)
Lemma extract_settlement_priority_masked :
  ~ (forall text pre p mid q post gp gq a b,
       PENALTY_PATTERNS = (pre ++ p :: mid ++ q :: post)%list ->
       finding_of p text = Parsed gp a ->
       finding_of q text = Parsed gq b ->
       ~ (a == b)%Q ->
       extract_settlement (Some {| text := text |}) = Returns (Some a)).
Proof.
  intros H.
  assert (Hne : ~ (500 == 900)%Q) by (intros E; discriminate E).
  specialize (H priority_masked_sample
                (firstn 11 PENALTY_PATTERNS) (nth 11 PENALTY_PATTERNS Eps)
                (firstn 11 (skipn 12 PENALTY_PATTERNS))
                (nth 23 PENALTY_PATTERNS Eps) []
                "500" "900" 500%Q 900%Q eq_refl eq_refl eq_refl Hne).
  vm_compute in H. discriminate H.
Qed.

(** ** Effects of the extractor *)

Lemma after_nil (st : state) : after st [] = st.
Proof. destruct st as [fs tr]. unfold after. simpl. rewrite app_nil_r. reflexivity. Qed.

Lemma after_after (st : state) (evs1 evs2 : list event) :
  after (after st evs1) evs2 = after st (evs1 ++ evs2)%list.
Proof. unfold after. simpl. rewrite app_assoc. reflexivity. Qed.

(** The structured pass only reads pages: it makes no call of the recognition
    path and leaves the files alone. *)
Lemma plumber_loop_run (w : World) (pages : list (page w)) :
  forall i text st,
  exists r evs,
    plumber_loop w pages i text st = (r, after st evs)
    /\ existsb ocr_event evs = false.
Proof.
  induction pages as [|pg rest IH]; intros i text st.
  - exists (Returns text), []. rewrite after_nil. split; reflexivity.
  - cbn [plumber_loop]. unfold bind at 1. unfold call. unfold bind at 1.
    unfold record at 1. unfold lift.
    destruct (extract_text w pg) as [[t|]|e].
    + destruct (is_empty t).
      * destruct (IH (S i) text (after st [EvExtractText i])) as (r & evs & -> & H).
        exists r, (EvExtractText i :: evs). rewrite after_after. split; auto.
      * destruct (IH (S i) (text ++ t ++ newline) (after st [EvExtractText i]))
          as (r & evs & -> & H).
        exists r, (EvExtractText i :: evs). rewrite after_after. split; auto.
    + destruct (IH (S i) text (after st [EvExtractText i])) as (r & evs & -> & H).
      exists r, (EvExtractText i :: evs). rewrite after_after. split; auto.
    + exists (Raises e), [EvExtractText i]. split; reflexivity.
Qed.

Lemma extract_with_pdfplumber_run (w : World) (pdf_content : bytes) (st : state) :
  exists r evs,
    _extract_with_pdfplumber w pdf_content st = (Returns r, after st evs)
    /\ existsb ocr_event evs = false.
Proof.
  unfold _extract_with_pdfplumber, try_except. unfold bind at 1. unfold call.
  unfold bind at 1. unfold record at 1. unfold lift.
  destruct (pdfplumber_open w pdf_content) as [pages|e].
  - unfold bind.
    destruct (plumber_loop_run w pages 1 EmptyString (after st [EvPdfplumberOpen]))
      as (r & evs & H & Hev).
    change {| files := files st; trace := (trace st ++ [EvPdfplumberOpen])%list |}
      with (after st [EvPdfplumberOpen]).
    rewrite H. rewrite after_after.
    destruct r as [text|e]; unfold ret; eauto.
  - unfold ret. exists None, [EvPdfplumberOpen]. split; reflexivity.
Qed.

(** A page either fails, possibly after the recognition call, or adds its text
    to the pages recognised so far; it touches no file. *)
Lemma ocr_page_run (w : World) (i : nat) (img : image w) (pages_text : list string)
    (st : state) :
  exists r evs,
    ocr_page w i img pages_text st = (r, after st evs)
    /\ forallb is_page_event evs = true.
Proof.
  unfold ocr_page, call, bind, lift, record, ret.
  destruct (convert w img "L") as [img1|e];
    [|exists (Raises e), []; rewrite after_nil; split; reflexivity].
  destruct (enhance w Contrast img1 2) as [img2|e];
    [|exists (Raises e), []; rewrite after_nil; split; reflexivity].
  destruct (enhance w Sharpness img2 2) as [img3|e];
    [|exists (Raises e), []; rewrite after_nil; split; reflexivity].
  destruct (image_to_string w img3 custom_config) as [page_text|e].
  - destruct (is_empty (strip page_text)); eexists _, [EvImageToString i];
      split; reflexivity.
  - exists (Raises e), [EvImageToString i]. split; reflexivity.
Qed.

(** The page loop never raises: a failing page is skipped and the loop goes
    on. *)
Lemma ocr_loop_run (w : World) (images : list (image w)) :
  forall i pages_text st,
  exists pages evs,
    ocr_loop w images i pages_text st = (Returns pages, after st evs)
    /\ forallb is_page_event evs = true.
Proof.
  induction images as [|img rest IH]; intros i pages_text st.
  - exists pages_text, []. rewrite after_nil. split; reflexivity.
  - cbn [ocr_loop]. unfold bind at 1. unfold try_except.
    destruct (ocr_page_run w i img pages_text st) as (r & evs1 & -> & H1).
    destruct r as [pages1|e]; unfold ret.
    + destruct (IH (S i) pages1 (after st evs1)) as (pages & evs2 & -> & H2).
      exists pages, (evs1 ++ evs2)%list. rewrite after_after, forallb_app, H1, H2.
      split; reflexivity.
    + destruct (IH (S i) pages_text (after st evs1)) as (pages & evs2 & -> & H2).
      exists pages, (evs1 ++ evs2)%list. rewrite after_after, forallb_app, H1, H2.
      split; reflexivity.
Qed.

Lemma remove_file_fresh (p : path) (fs : list (path * bytes)) :
  existsb (fun f => String.eqb (fst f) p) fs = false -> remove_file p fs = fs.
Proof.
  induction fs as [|f fs IH]; intros H; [reflexivity|].
  simpl in *. apply orb_false_iff in H. destruct H as [Hf H].
  rewrite Hf. simpl. rewrite IH by assumption. reflexivity.
Qed.

(** The statements guarded by [finally]: whatever rasterisation and the pages
    do, the result is a value or an exception, and the only calls made are the
    rasterisation and the recognition of pages. *)
Lemma ocr_body_run (w : World) (p : path) (b : bytes) (st : state) :
  lookup_file p (files st) = Some b ->
  exists r evs,
    (images <- rasterize w p 400 ;;
     pages_text <- ocr_loop w images 0 [] ;;
     match pages_text with
     | [] => ret None
     | _ :: _ => ret (Some (String.concat (newline ++ newline) pages_text))
     end) st
    = (r, after st (EvConvertFromPath p 400 :: evs))
    /\ forallb is_page_event evs = true.
Proof.
  intros Hlook. unfold rasterize. unfold bind at 1. unfold bind at 1.
  unfold get_files. rewrite Hlook. unfold call, bind, record, lift.
  destruct (convert_from_path w b 400) as [images|e].
  - destruct (ocr_loop_run w images 0 [] (after st [EvConvertFromPath p 400]))
      as (pages & evs & -> & Hev).
    rewrite after_after.
    destruct pages; unfold ret; eexists _, evs; split; eauto.
  - exists (Raises e), []. split; reflexivity.
Qed.

(** ** Recognition-based extraction and its temporary file *)

Lemma NamedTemporaryFile_run (w : World) (st : state) (p : path) :
  temp_name w (map fst (files st)) = Returns p ->
  on_disk p st = false ->
  NamedTemporaryFile w st
  = (Returns p, {| files := (p, []) :: files st;
                   trace := (trace st ++ [EvNamedTemporaryFile])%list |}).
Proof.
  intros Hname Hfresh. unfold on_disk in Hfresh.
  unfold NamedTemporaryFile, call, bind, get_files, record, lift, set_files, ret.
  rewrite Hname. cbn [files after]. rewrite Hfresh. reflexivity.
Qed.

Lemma NamedTemporaryFile_fails (w : World) (st : state) :
  (forall p, temp_name w (map fst (files st)) = Returns p -> on_disk p st = true) ->
  exists e, NamedTemporaryFile w st = (Raises e, after st [EvNamedTemporaryFile]).
Proof.
  intros H. unfold on_disk in H.
  unfold NamedTemporaryFile, call, bind, get_files, record, lift, set_files, ret, raise.
  destruct (temp_name w (map fst (files st))) as [p|e].
  - cbn [files after]. rewrite (H p eq_refl). eauto.
  - eauto.
Qed.

Lemma write_run (w : World) (p : path) (data : bytes) (st : state) :
  write w p data st
  = if write_fails w p data
    then (Raises OtherError,
          {| files := (p, firstn (written_on_failure w p data) data)
                      :: remove_file p (files st);
             trace := (trace st ++ [EvWrite p])%list |})
    else (Returns tt, {| files := (p, data) :: remove_file p (files st);
                         trace := (trace st ++ [EvWrite p])%list |}).
Proof.
  unfold write, bind, record, get_files, set_files, raise.
  destruct (write_fails w p data); reflexivity.
Qed.

Lemma unlink_run (w : World) (p : path) (st : state) :
  on_disk p st = true ->
  unlink w p st
  = if unlink_fails w p
    then (Raises OtherError, after st [EvUnlink p])
    else (Returns tt, {| files := remove_file p (files st);
                         trace := (trace st ++ [EvUnlink p])%list |}).
Proof.
  unfold on_disk. intros H.
  unfold unlink, bind, record, get_files, set_files, raise.
  cbn [files after]. rewrite H. cbn [negb]. rewrite orb_false_r.
  destruct (unlink_fails w p); reflexivity.
Qed.

Lemma remove_file_head (p : path) (b : bytes) (fs : list (path * bytes)) :
  remove_file p ((p, b) :: fs) = remove_file p fs.
Proof. unfold remove_file. cbn [filter fst]. rewrite String.eqb_refl. reflexivity. Qed.

(** The run of [_extract_with_ocr] once the temporary file is written. *)
Lemma extract_with_ocr_written (w : World) (pdf_content : bytes) (st : state)
    (p : path) :
  temp_name w (map fst (files st)) = Returns p ->
  on_disk p st = false ->
  write_fails w p pdf_content = false ->
  exists r evs st',
    _extract_with_ocr w pdf_content st = (Returns r, st')
    /\ trace st' =
       (trace st ++ [EvNamedTemporaryFile; EvWrite p; EvConvertFromPath p 400]
        ++ evs ++ [EvUnlink p])%list
    /\ forallb is_page_event evs = true
    /\ (unlink_fails w p = false -> files st' = files st)
    /\ (unlink_fails w p = true -> files st' = (p, pdf_content) :: files st).
Proof.
  intros Hname Hfresh Hwrite.
  unfold _extract_with_ocr, try_except.
  unfold bind at 1. unfold bind at 1. unfold bind at 1.
  rewrite (NamedTemporaryFile_run w st p Hname Hfresh).
  rewrite write_run, Hwrite. cbn [files trace]. unfold ret at 1.
  rewrite remove_file_head, (remove_file_fresh p (files st) Hfresh).
  unfold try_finally.
  match goal with
  | |- context [bind (rasterize w p 400) ?k ?s] =>
      destruct (ocr_body_run w p pdf_content s) as (r & evs & Hrun & Hev);
        [cbn [files lookup_file]; rewrite String.eqb_refl; reflexivity|]
  end.
  rewrite Hrun. clear Hrun.
  rewrite unlink_run
    by (unfold on_disk; cbn [files after existsb fst]; rewrite String.eqb_refl;
        reflexivity).
  cbn [files trace after]. rewrite remove_file_head, remove_file_fresh by exact Hfresh.
  unfold ret.
  assert (Htr : forall l : list event,
             ((((trace st ++ [EvNamedTemporaryFile]) ++ [EvWrite p])
               ++ EvConvertFromPath p 400 :: l) ++ [EvUnlink p])%list
             = (trace st ++ [EvNamedTemporaryFile; EvWrite p; EvConvertFromPath p 400]
                ++ l ++ [EvUnlink p])%list).
  { intros l. rewrite <- !app_assoc. reflexivity. }
  destruct (unlink_fails w p) eqn:Hu; destruct r as [r|e];
    eexists _, evs, _; (split; [reflexivity|]); cbn [trace files after];
    rewrite Htr; repeat split; auto; discriminate.
Qed.

(** X22.  Once the temporary file is written, every way out of
    [_extract_with_ocr] (rasterisation raising, pages failing, pages
    recognised) makes exactly the calls: temporary file, write, rasterise,
    page recognitions, unlink; the unlink is the last call and is never
    skipped.  No exception leaves the function.  The files on disk are those
    from before the call, unless [os.unlink] itself fails, in which case the
    file stays. *)
Theorem extract_with_ocr_cleanup (w : World) (pdf_content : bytes) (st : state)
    (p : path) :
  temp_name w (map fst (files st)) = Returns p ->
  on_disk p st = false ->
  write_fails w p pdf_content = false ->
  exists r evs st',
    _extract_with_ocr w pdf_content st = (Returns r, st')
    /\ trace st' =
       (trace st ++ [EvNamedTemporaryFile; EvWrite p; EvConvertFromPath p 400]
        ++ evs ++ [EvUnlink p])%list
    /\ forallb is_page_event evs = true
    /\ (unlink_fails w p = false -> files st' = files st)
    /\ (unlink_fails w p = true -> files st' = (p, pdf_content) :: files st).
Proof. exact (extract_with_ocr_written w pdf_content st p). Qed.

(** The first page fails, the second is recognised, the file is removed. *)
Lemma extract_with_ocr_cleanup_witness :
  let w := scripted (Returns []) (Returns [])
             (Returns [Raises OtherError; Returns "page two"]) false false in
  exists r evs st',
    _extract_with_ocr w [] (initial []) = (Returns r, st')
    /\ trace st' =
       ([] ++ [EvNamedTemporaryFile; EvWrite tmp0; EvConvertFromPath tmp0 400]
        ++ evs ++ [EvUnlink tmp0])%list
    /\ forallb is_page_event evs = true
    /\ (false = false -> files st' = [])
    /\ (false = true -> files st' = [(tmp0, [])]).
Proof.
  exact (extract_with_ocr_cleanup
           (scripted (Returns []) (Returns [])
              (Returns [Raises OtherError; Returns "page two"]) false false)
           [] (initial []) tmp0 eq_refl eq_refl eq_refl).
Defined.

(** When [os.unlink] raises, the exception is caught by the handler inside
    [finally] and the temporary file stays on disk. *)
Lemma extract_with_ocr_unlink_failure_keeps_file :
  ~ (forall w pdf_content st p,
       temp_name w (map fst (files st)) = Returns p ->
       on_disk p st = false ->
       on_disk p (snd (_extract_with_ocr w pdf_content st)) = false).
Proof.
  intros H.
  specialize (H (scripted (Returns []) (Returns []) (Returns [Returns "page one"])
                   false true)
                [] (initial []) tmp0 eq_refl eq_refl).
  vm_compute in H. discriminate H.
Qed.

(** C9.  The claim fails on the code when writing the temporary file raises.
    The [with] block that creates the file with [delete=False] and writes it
    lies before the [try ... finally]: the function returns nothing, the file
    stays on disk with the bytes that reached it, and [os.unlink] is never
    called, whereas every path that follows the write ends with the unlink.
    Here the document is the four bytes [%PDF], the disk has no file, and the
    write fails after two bytes. *)
Example extract_with_ocr_write_failure :
  _extract_with_ocr
    (scripted (Returns []) (Returns []) (Returns [Returns "page one"]) true false)
    [Byte.x25; Byte.x50; Byte.x44; Byte.x46] (initial [])
  = (Returns None,
     {| files := [(tmp0, [Byte.x25; Byte.x50])];
        trace := [EvNamedTemporaryFile; EvWrite tmp0] |}).
Proof. reflexivity. Qed.

(** Every failing write leaves the function in this way, before the
    [try ... finally]: the file that was created stays on disk and no unlink
    is attempted. *)
Lemma extract_with_ocr_write_failure_leaves_file (w : World) (pdf_content : bytes)
    (st : state) (p : path) :
  temp_name w (map fst (files st)) = Returns p ->
  on_disk p st = false ->
  write_fails w p pdf_content = true ->
  _extract_with_ocr w pdf_content st
  = (Returns None,
     {| files := (p, firstn (written_on_failure w p pdf_content) pdf_content)
                 :: files st;
        trace := (trace st ++ [EvNamedTemporaryFile; EvWrite p])%list |}).
Proof.
  intros Hname Hfresh Hwrite.
  unfold _extract_with_ocr, try_except.
  unfold bind at 1. unfold bind at 1. unfold bind at 1.
  rewrite (NamedTemporaryFile_run w st p Hname Hfresh).
  rewrite write_run, Hwrite. unfold ret. cbn [files trace].
  rewrite remove_file_head, (remove_file_fresh p (files st) Hfresh).
  rewrite <- app_assoc. reflexivity.
Qed.

(** Whatever happens, [_extract_with_ocr] returns, and its first call is the
    creation of the temporary file. *)
Lemma extract_with_ocr_run (w : World) (pdf_content : bytes) (st : state) :
  exists r evs st',
    _extract_with_ocr w pdf_content st = (Returns r, st')
    /\ trace st' = (trace st ++ EvNamedTemporaryFile :: evs)%list.
Proof.
  destruct (temp_name w (map fst (files st))) as [p|e] eqn:Hname.
  - destruct (on_disk p st) eqn:Hd.
    + destruct (NamedTemporaryFile_fails w st) as [e He].
      { intros q Hq. rewrite Hname in Hq. injection Hq as <-. exact Hd. }
      unfold _extract_with_ocr, try_except. unfold bind at 1. unfold bind at 1.
      unfold bind at 1. rewrite He. unfold ret.
      eexists None, [], _. split; reflexivity.
    + destruct (write_fails w p pdf_content) eqn:Hw.
      * unfold _extract_with_ocr, try_except. unfold bind at 1. unfold bind at 1.
        unfold bind at 1. rewrite (NamedTemporaryFile_run w st p Hname Hd).
        rewrite write_run, Hw. unfold ret.
        eexists None, [EvWrite p], _. split; [reflexivity|].
        cbn [trace after]. rewrite <- app_assoc. reflexivity.
      * destruct (extract_with_ocr_written w pdf_content st p Hname Hd Hw)
          as (r & evs & st' & Hrun & Htr & _).
        exists r, ([EvWrite p; EvConvertFromPath p 400] ++ evs ++ [EvUnlink p])%list, st'.
        split; [exact Hrun | exact Htr].
  - destruct (NamedTemporaryFile_fails w st) as [e' He].
    { intros q Hq. rewrite Hname in Hq. discriminate Hq. }
    unfold _extract_with_ocr, try_except. unfold bind at 1. unfold bind at 1.
    unfold bind at 1. rewrite He. unfold ret.
    eexists None, [], _. split; reflexivity.
Qed.

(** ** The decision gate of [extract_from_pdf] *)

Lemma strip_empty (s : string) : is_empty s = true -> strip s = EmptyString.
Proof. destruct s; [reflexivity|discriminate]. Qed.

(** The gate [t and len(t.strip()) > 200] compares the trimmed length, absent
    text counting for zero. *)
Lemma meaningful_trimmed (t : option string) :
  meaningful t = Nat.ltb 200 (trimmed_length t).
Proof.
  destruct t as [s|]; [|reflexivity]. simpl.
  destruct (is_empty s) eqn:E; [|reflexivity].
  rewrite (strip_empty s E). reflexivity.
Qed.

Lemma ocr_fallback_run (w : World) (pdf_content : bytes) (st : state) :
  exists r evs st',
    ocr_fallback w pdf_content st = (Returns r, st')
    /\ trace st' = (trace st ++ EvNamedTemporaryFile :: evs)%list
    /\ (exists ocr_text, _extract_with_ocr w pdf_content st = (Returns ocr_text, st')
          /\ r = match ocr_text with
                 | Some o => if meaningful ocr_text
                             then Some {| text := _clean_ocr_text o |} else None
                 | None => None
                 end).
Proof.
  destruct (extract_with_ocr_run w pdf_content st) as (ocr_text & evs & st' & Hrun & Htr).
  unfold ocr_fallback, bind. rewrite Hrun.
  destruct ocr_text as [o|].
  - destruct (meaningful (Some o)) eqn:Hm; unfold ret; eexists _, evs, st';
      (split; [reflexivity|]); (split; [exact Htr|]); exists (Some o); rewrite Hm; auto.
  - unfold ret. eexists _, evs, st'. split; [reflexivity|]. split; [exact Htr|].
    exists None. auto.
Qed.

(** The run of [extract_from_pdf] after a successful fetch, by the outcome of
    the gate. *)
Lemma extract_from_pdf_fetched (w : World) (url : string) (st st1 : state)
    (pdf_content : bytes) (pdfplumber_text : option string) :
  requests_get w url = Returns pdf_content ->
  _extract_with_pdfplumber w pdf_content (after st [EvGet url])
  = (Returns pdfplumber_text, st1) ->
  extract_from_pdf w url st
  = if meaningful pdfplumber_text
    then (Returns (option_map (fun t => {| text := t |}) pdfplumber_text), st1)
    else ocr_fallback w pdf_content st1.
Proof.
  intros Hget Hpl. unfold extract_from_pdf, try_except. unfold bind at 1.
  unfold call, bind at 1. unfold record, lift. rewrite Hget.
  unfold bind at 1. rewrite Hpl.
  destruct (ocr_fallback_run w pdf_content st1) as (r & evs & st' & Hrun & _).
  destruct pdfplumber_text as [t|].
  - destruct (meaningful (Some t)); [reflexivity|]. rewrite Hrun. reflexivity.
  - simpl. rewrite Hrun. reflexivity.
Qed.

(** C1.  After a successful fetch, the recognition path is entered exactly
    when the trimmed length of the structured text is at most 200, absent or
    empty text included: above 200 the structured text is returned as
    [{text}] and the run ends with the structured pass, no call of the
    recognition path being made; otherwise [_extract_with_ocr] is run on the
    same bytes. *)
Theorem extract_from_pdf_gate (w : World) (url : string) (fs : list (path * bytes))
    (pdf_content : bytes) (pdfplumber_text : option string) (st1 : state) :
  requests_get w url = Returns pdf_content ->
  _extract_with_pdfplumber w pdf_content (after (initial fs) [EvGet url])
  = (Returns pdfplumber_text, st1) ->
  (ocr_invoked (trace (snd (extract_from_pdf w url (initial fs)))) = true
   <-> trimmed_length pdfplumber_text <= 200)
  /\ (200 < trimmed_length pdfplumber_text ->
      exists t, pdfplumber_text = Some t
                /\ extract_from_pdf w url (initial fs)
                   = (Returns (Some {| text := t |}), st1)
                /\ existsb is_rasterize (trace st1) = false)
  /\ (trimmed_length pdfplumber_text <= 200 ->
      exists ocr_text st2,
        _extract_with_ocr w pdf_content st1 = (Returns ocr_text, st2)
        /\ snd (extract_from_pdf w url (initial fs)) = st2).
Proof.
  intros Hget Hpl.
  rewrite (extract_from_pdf_fetched w url (initial fs) st1 pdf_content
             pdfplumber_text Hget Hpl).
  rewrite meaningful_trimmed.
  destruct (extract_with_pdfplumber_run w pdf_content (after (initial fs) [EvGet url]))
    as (r0 & evs0 & Hpl' & Hquiet).
  rewrite Hpl in Hpl'. injection Hpl' as <- Hst1.
  assert (Htr1 : trace st1 = EvGet url :: evs0) by (rewrite Hst1; reflexivity).
  assert (Hno : ocr_invoked (trace st1) = false) by (rewrite Htr1; exact Hquiet).
  destruct (Nat.ltb 200 (trimmed_length pdfplumber_text)) eqn:Hgate.
  - apply Nat.ltb_lt in Hgate. cbn [snd]. rewrite Hno.
    split; [split; [discriminate | lia]|]. split; [|lia].
    intros _. destruct pdfplumber_text as [t|]; [|simpl in Hgate; lia].
    exists t. repeat split.
    rewrite Htr1. cbn [existsb is_rasterize]. clear - Hquiet.
    induction evs0 as [|e evs IH]; [reflexivity|]. simpl in *.
    apply orb_false_iff in Hquiet. destruct Hquiet as [He Hq].
    rewrite (IH Hq). destruct e; try reflexivity; discriminate.
  - apply Nat.ltb_ge in Hgate.
    destruct (ocr_fallback_run w pdf_content st1)
      as (r & evs & st2 & Hrun & Htr & ocr_text & Hocr & _).
    rewrite Hrun. cbn [snd].
    split; [split; [intros _; exact Hgate|]|].
    + intros _. rewrite Htr. unfold ocr_invoked. rewrite existsb_app. simpl.
      apply orb_true_r.
    + split; [lia|]. intros _. exists ocr_text, st2. auto.
Qed.

(** The structured text has 210 characters: it is returned and the run stops
    after the structured pass. *)
Lemma extract_from_pdf_gate_witness :
  let w := scripted (Returns []) (Returns [Returns (Some long_text)]) (Returns [])
             false false in
  let st1 := {| files := [];
                trace := [EvGet "https://dnr.example/order.pdf"; EvPdfplumberOpen;
                          EvExtractText 1] |} in
  (ocr_invoked
     (trace (snd (extract_from_pdf w "https://dnr.example/order.pdf" (initial []))))
   = true
   <-> trimmed_length (Some long_text) <= 200)
  /\ (200 < trimmed_length (Some long_text) ->
      exists t, Some long_text = Some t
                /\ extract_from_pdf w "https://dnr.example/order.pdf" (initial [])
                   = (Returns (Some {| text := t |}), st1)
                /\ existsb is_rasterize (trace st1) = false)
  /\ (trimmed_length (Some long_text) <= 200 ->
      exists ocr_text st2,
        _extract_with_ocr w [] st1 = (Returns ocr_text, st2)
        /\ snd (extract_from_pdf w "https://dnr.example/order.pdf" (initial [])) = st2).
Proof.
  exact (extract_from_pdf_gate
           (scripted (Returns []) (Returns [Returns (Some long_text)]) (Returns [])
              false false)
           "https://dnr.example/order.pdf" [] [] (Some long_text)
           {| files := [];
              trace := [EvGet "https://dnr.example/order.pdf"; EvPdfplumberOpen;
                        EvExtractText 1] |}
           eq_refl eq_refl).
Defined.

(** ** Failures of the extractor *)

(** When the rasteriser rejects the bytes, recognition gives nothing. *)
Lemma extract_with_ocr_unreadable (w : World) (pdf_content : bytes) (st : state)
    (e : exn) :
  convert_from_path w pdf_content 400 = Raises e ->
  exists st', _extract_with_ocr w pdf_content st = (Returns None, st').
Proof.
  intros Hconv.
  destruct (temp_name w (map fst (files st))) as [p|e0] eqn:Hname.
  - destruct (on_disk p st) eqn:Hd.
    + destruct (NamedTemporaryFile_fails w st) as [e1 He].
      { intros q Hq. rewrite Hname in Hq. injection Hq as <-. exact Hd. }
      unfold _extract_with_ocr, try_except. unfold bind at 1. unfold bind at 1.
      unfold bind at 1. rewrite He. unfold ret. eauto.
    + unfold _extract_with_ocr, try_except. unfold bind at 1. unfold bind at 1.
      unfold bind at 1. rewrite (NamedTemporaryFile_run w st p Hname Hd).
      rewrite write_run. destruct (write_fails w p pdf_content); [unfold ret; eauto|].
      unfold ret at 1. unfold try_finally.
      unfold rasterize. unfold bind at 1. unfold bind at 1. unfold get_files.
      cbn [files lookup_file]. rewrite String.eqb_refl.
      unfold call, bind, record, lift. rewrite Hconv.
      match goal with
      | |- context [unlink w p ?s] => destruct (unlink w p s) as [[u|e2] st2]
      end; unfold ret; eauto.
  - destruct (NamedTemporaryFile_fails w st) as [e1 He].
    { intros q Hq. rewrite Hname in Hq. discriminate Hq. }
    unfold _extract_with_ocr, try_except. unfold bind at 1. unfold bind at 1.
    unfold bind at 1. rewrite He. unfold ret. eauto.
Qed.

Lemma extract_with_pdfplumber_unopened (w : World) (pdf_content : bytes) (st : state)
    (e : exn) :
  pdfplumber_open w pdf_content = Raises e ->
  _extract_with_pdfplumber w pdf_content st = (Returns None, after st [EvPdfplumberOpen]).
Proof.
  intros H. unfold _extract_with_pdfplumber, try_except. unfold bind at 1.
  unfold call, bind, record, lift. rewrite H. reflexivity.
Qed.

(** C6, as the code has it.  [extract_from_pdf] always returns an optional
    text and never raises.  It returns nothing when the fetch fails; when the
    structured text is absent or at most 200 characters long and recognition
    returns nothing or at most 200 characters; and in particular on bytes that
    neither the structured reader nor the rasteriser can open.  When the
    structured text is absent or too short, a recognised text of more than
    200 trimmed characters is returned, cleaned up; so it is when the
    structured reader alone cannot open the bytes. *)
Theorem extract_from_pdf_total (w : World) (url : string) (st : state) :
  (exists r st', extract_from_pdf w url st = (Returns r, st'))
  /\ (forall e, requests_get w url = Raises e ->
                fst (extract_from_pdf w url st) = Returns None)
  /\ (forall pdf_content pdfplumber_text st1 ocr_text st2,
        requests_get w url = Returns pdf_content ->
        _extract_with_pdfplumber w pdf_content (after st [EvGet url])
        = (Returns pdfplumber_text, st1) ->
        meaningful pdfplumber_text = false ->
        _extract_with_ocr w pdf_content st1 = (Returns ocr_text, st2) ->
        meaningful ocr_text = false ->
        fst (extract_from_pdf w url st) = Returns None)
  /\ (forall pdf_content e1 e2,
        requests_get w url = Returns pdf_content ->
        pdfplumber_open w pdf_content = Raises e1 ->
        convert_from_path w pdf_content 400 = Raises e2 ->
        fst (extract_from_pdf w url st) = Returns None)
  /\ (forall pdf_content pdfplumber_text st1 o st2,
        requests_get w url = Returns pdf_content ->
        _extract_with_pdfplumber w pdf_content (after st [EvGet url])
        = (Returns pdfplumber_text, st1) ->
        meaningful pdfplumber_text = false ->
        _extract_with_ocr w pdf_content st1 = (Returns (Some o), st2) ->
        200 < String.length (strip o) ->
        extract_from_pdf w url st
        = (Returns (Some {| text := _clean_ocr_text o |}), st2))
  /\ (forall pdf_content e o st2,
        requests_get w url = Returns pdf_content ->
        pdfplumber_open w pdf_content = Raises e ->
        _extract_with_ocr w pdf_content (after (after st [EvGet url]) [EvPdfplumberOpen])
        = (Returns (Some o), st2) ->
        200 < String.length (strip o) ->
        extract_from_pdf w url st
        = (Returns (Some {| text := _clean_ocr_text o |}), st2)).
Proof.
  assert (Hfallback :
            forall pdf_content pdfplumber_text st1 o st2,
              requests_get w url = Returns pdf_content ->
              _extract_with_pdfplumber w pdf_content (after st [EvGet url])
              = (Returns pdfplumber_text, st1) ->
              meaningful pdfplumber_text = false ->
              _extract_with_ocr w pdf_content st1 = (Returns (Some o), st2) ->
              200 < String.length (strip o) ->
              extract_from_pdf w url st
              = (Returns (Some {| text := _clean_ocr_text o |}), st2)).
  { intros pdf_content pdfplumber_text st1 o st2 Hget Hpl Hm1 Hocr Hlen.
    rewrite (extract_from_pdf_fetched w url st st1 pdf_content pdfplumber_text Hget Hpl).
    rewrite Hm1. unfold ocr_fallback, bind. rewrite Hocr.
    assert (Hm2 : meaningful (Some o) = true).
    { rewrite meaningful_trimmed. apply Nat.ltb_lt. exact Hlen. }
    rewrite Hm2. reflexivity. }
  assert (Hgeneral :
            forall pdf_content pdfplumber_text st1 ocr_text st2,
              requests_get w url = Returns pdf_content ->
              _extract_with_pdfplumber w pdf_content (after st [EvGet url])
              = (Returns pdfplumber_text, st1) ->
              meaningful pdfplumber_text = false ->
              _extract_with_ocr w pdf_content st1 = (Returns ocr_text, st2) ->
              meaningful ocr_text = false ->
              fst (extract_from_pdf w url st) = Returns None).
  { intros pdf_content pdfplumber_text st1 ocr_text st2 Hget Hpl Hm1 Hocr Hm2.
    rewrite (extract_from_pdf_fetched w url st st1 pdf_content pdfplumber_text Hget Hpl).
    rewrite Hm1. unfold ocr_fallback, bind. rewrite Hocr.
    destruct ocr_text as [o|]; [rewrite Hm2|]; reflexivity. }
  split; [|split; [|split; [|split; [|split]]]].
  - unfold extract_from_pdf, try_except.
    match goal with
    | |- context [match ?m st with _ => _ end] => destruct (m st) as [[r|e] st']
    end; unfold ret; eauto.
  - intros e Hget. unfold extract_from_pdf, try_except. unfold bind at 1.
    unfold call, bind, record, lift. rewrite Hget. reflexivity.
  - exact Hgeneral.
  - intros pdf_content e1 e2 Hget Hopen Hconv.
    destruct (extract_with_ocr_unreadable w pdf_content
                (after (after st [EvGet url]) [EvPdfplumberOpen]) e2 Hconv)
      as [st2 Hocr].
    apply (Hgeneral pdf_content None _ None st2 Hget
             (extract_with_pdfplumber_unopened w pdf_content _ e1 Hopen)
             eq_refl Hocr eq_refl).
  - exact Hfallback.
  - intros pdf_content e o st2 Hget Hopen Hocr Hlen.
    apply (Hfallback pdf_content None _ o st2 Hget
             (extract_with_pdfplumber_unopened w pdf_content _ e Hopen)
             eq_refl Hocr Hlen).
Qed.

(** A failed fetch gives nothing; a document that only the structured reader
    rejects gives the recognised text. *)
Lemma extract_from_pdf_total_witness :
  fst (extract_from_pdf
         (scripted (Raises OtherError) (Returns []) (Returns []) false false)
         "https://dnr.example/order.pdf" (initial []))
  = Returns None
  /\ fst (extract_from_pdf
            (scripted (Returns []) (Raises OtherError) (Returns [Returns long_text])
               false false)
            "https://dnr.example/order.pdf" (initial []))
     = Returns (Some {| text := _clean_ocr_text long_text |}).
Proof.
  split.
  - exact (proj1 (proj2 (extract_from_pdf_total
                           (scripted (Raises OtherError) (Returns []) (Returns [])
                              false false)
                           "https://dnr.example/order.pdf" (initial [])))
             OtherError eq_refl).
  - rewrite (proj2 (proj2 (proj2 (proj2 (proj2
               (extract_from_pdf_total
                  (scripted (Returns []) (Raises OtherError)
                     (Returns [Returns long_text]) false false)
                  "https://dnr.example/order.pdf" (initial []))))))
               [] OtherError long_text
               {| files := [];
                  trace := [EvGet "https://dnr.example/order.pdf"; EvPdfplumberOpen;
                            EvNamedTemporaryFile; EvWrite tmp0;
                            EvConvertFromPath tmp0 400; EvImageToString 0;
                            EvUnlink tmp0] |}
               eq_refl eq_refl eq_refl).
    + reflexivity.
    + apply Nat.ltb_lt. reflexivity.
Defined.

(** C6, as the claim states it, fails: when only the structured reader
    rejects the bytes, recognition is tried and its text is returned. *)
Lemma extract_from_pdf_structured_failure_recovers :
  ~ (forall w url st pdf_content e,
       requests_get w url = Returns pdf_content ->
       pdfplumber_open w pdf_content = Raises e ->
       fst (extract_from_pdf w url st) = Returns None).
Proof.
  intros H.
  specialize (H (scripted (Returns []) (Raises OtherError)
                   (Returns [Returns long_text]) false false)
                "https://dnr.example/order.pdf" (initial []) [] OtherError
                eq_refl eq_refl).
  vm_compute in H. discriminate H.
Qed.

(** * Further properties *)

(** ** Cleanup of recognised text: what is kept *)

(** One pass leaves a character alone or replaces the pattern's character by
    its replacement. *)
Lemma re_sub_step (f : ocr_fix) (s : string) (i : nat) (c : ascii) :
  get i s = Some c ->
  get i (re_sub f s) = Some c
  \/ (c = fix_char f /\ get i (re_sub f s) = Some (fix_new f)).
Proof.
  intros E. rewrite get_re_sub, E. simpl. unfold fix_hit.
  destruct (Ascii.eqb c (fix_char f)) eqn:Ec; simpl; [|auto].
  apply Ascii.eqb_eq in Ec.
  destruct (negb _ && negb _); auto.
Qed.

Lemma re_sub_from_length (f : ocr_fix) (s : string) :
  forall before, String.length (re_sub_from f before s) = String.length s.
Proof.
  induction s as [|c s IH]; intros before; [reflexivity|].
  simpl. rewrite IH. reflexivity.
Qed.

Lemma re_sub_length (f : ocr_fix) (s : string) :
  String.length (re_sub f s) = String.length s.
Proof. apply re_sub_from_length. Qed.

Ltac sub_step f E En :=
  destruct (re_sub_step f _ _ _ E) as [En | [? En]];
  simpl in *; try discriminate; subst.

(** X1.  The cleanup keeps the length of the text, and the only characters it
    changes are 0, 1, 5, 8 and the currency glyph, which become O, I, S, B
    and S. *)
Theorem clean_ocr_text_changes (text : string) :
  String.length (_clean_ocr_text text) = String.length text
  /\ forall i c,
       get i text = Some c ->
       exists c',
         get i (_clean_ocr_text text) = Some c'
         /\ (c' = c
             \/ (c = "0" /\ c' = "O") \/ (c = "1" /\ c' = "I")
             \/ (c = "$" /\ c' = "S") \/ (c = "8" /\ c' = "B")
             \/ (c = "5" /\ c' = "S"))%char.
Proof.
  rewrite fixes_unfold. split.
  - rewrite !re_sub_length. reflexivity.
  - intros i c E.
    sub_step (mk_fix Char.is_digit "0" Char.is_digit "O") E E1;
    sub_step (mk_fix Char.is_digit "1" Char.is_digit "I") E1 E2;
    sub_step (mk_fix Char.is_dollar "$" Char.is_digit "S") E2 E3;
    sub_step (mk_fix Char.is_digit "8" Char.is_digit "B") E3 E4;
    sub_step (mk_fix Char.is_digit "5" Char.is_digit "S") E4 E5;
    eexists; (split; [exact E5|]); auto 10.
Qed.

Lemma digit_pair_kept (f : ocr_fix) (s : string) (i : nat) (c d : ascii) :
  run_safe f ->
  get i s = Some c -> get (S i) s = Some d ->
  Char.is_digit c = true -> Char.is_digit d = true ->
  get i (re_sub f s) = Some c /\ get (S i) (re_sub f s) = Some d.
Proof.
  intros Hsafe Ec Ed Hc Hd. rewrite !get_re_sub, Ec, Ed. cbn [prev_char option_map].
  rewrite Ec. unfold fix_hit. cbn [holds].
  destruct Hsafe as [Hsafe | Hsafe].
  - rewrite (proj2 (Hsafe d Hd)), (proj1 (Hsafe c Hc)). cbn [negb].
    rewrite !andb_false_r. cbn [andb]. auto.
  - assert (Ascii.eqb c (fix_char f) = false) as ->.
    { destruct (Ascii.eqb c (fix_char f)) eqn:E; [|reflexivity].
      apply Ascii.eqb_eq in E. congruence. }
    assert (Ascii.eqb d (fix_char f) = false) as ->.
    { destruct (Ascii.eqb d (fix_char f)) eqn:E; [|reflexivity].
      apply Ascii.eqb_eq in E. congruence. }
    auto.
Qed.

Lemma fixes_run_safe : Forall run_safe fixes.
Proof.
  unfold fixes. repeat (apply Forall_cons || apply Forall_nil);
    try (left; intros c Hc; cbn; rewrite Hc; auto; fail).
  right. reflexivity.
Qed.

(** X2.  Digits that stand next to each other are kept: the cleanup never alters a
    run of two or more digits. *)
Theorem clean_ocr_text_keeps_digit_runs (text : string) (i : nat) (c d : ascii) :
  get i text = Some c -> get (S i) text = Some d ->
  Char.is_digit c = true -> Char.is_digit d = true ->
  get i (_clean_ocr_text text) = Some c
  /\ get (S i) (_clean_ocr_text text) = Some d.
Proof.
  intros Ec Ed Hc Hd. unfold _clean_ocr_text.
  pose proof fixes_run_safe as Hsafe. revert text Ec Ed.
  induction Hsafe as [|f fs Hf _ IH]; intros text Ec Ed; [auto|].
  cbn [fold_left].
  destruct (digit_pair_kept f text i c d Hf Ec Ed Hc Hd) as [Ec' Ed'].
  apply IH; assumption.
Qed.

Lemma clean_ocr_text_keeps_digit_runs_witness :
  get 5 (_clean_ocr_text "Pay $50 now") = Some "5"%char
  /\ get 6 (_clean_ocr_text "Pay $50 now") = Some "0"%char.
Proof.
  apply (clean_ocr_text_keeps_digit_runs "Pay $50 now" 5 "5" "0"); reflexivity.
Defined.

(** X3.  A currency glyph in front of two or more digits is kept. *)
Theorem clean_ocr_text_keeps_currency_before_run (text : string) (i : nat)
    (c d : ascii) :
  get i text = Some "$"%char ->
  get (S i) text = Some c -> get (S (S i)) text = Some d ->
  Char.is_digit c = true -> Char.is_digit d = true ->
  get i (_clean_ocr_text text) = Some "$"%char.
Proof.
  intros E Ec Ed Hc Hd.
  assert (F0 : digit_fix (mk_fix Char.is_digit "0" Char.is_digit "O")) by (repeat split).
  assert (F1 : digit_fix (mk_fix Char.is_digit "1" Char.is_digit "I")) by (repeat split).
  assert (F8 : digit_fix (mk_fix Char.is_digit "8" Char.is_digit "B")) by (repeat split).
  assert (F5 : digit_fix (mk_fix Char.is_digit "5" Char.is_digit "S")) by (repeat split).
  assert (S0 : run_safe (mk_fix Char.is_digit "0" Char.is_digit "O"))
    by (left; intros x Hx; cbn; rewrite Hx; auto).
  assert (S1 : run_safe (mk_fix Char.is_digit "1" Char.is_digit "I"))
    by (left; intros x Hx; cbn; rewrite Hx; auto).
  destruct (digit_pair_kept _ text (S i) c d S0 Ec Ed Hc Hd) as [Ec0 Ed0].
  destruct (digit_pair_kept _ _ (S i) c d S1 Ec0 Ed0 Hc Hd) as [Ec1 _].
  rewrite fixes_unfold.
  apply (digit_fix_keeps_char _ _ _ _ F5); [reflexivity|].
  apply (digit_fix_keeps_char _ _ _ _ F8); [reflexivity|].
  rewrite get_re_sub.
  rewrite (digit_fix_keeps_char _ _ i "$" F1 eq_refl
             (digit_fix_keeps_char _ _ i "$" F0 eq_refl E)).
  cbn [option_map]. unfold fix_hit. cbn [fix_ahead fix_new fix_char fix_behind].
  rewrite Ec1. cbn [holds]. rewrite Hc. cbn [negb]. rewrite andb_false_r.
  reflexivity.
Qed.

Lemma clean_ocr_text_keeps_currency_before_run_witness :
  get 4 (_clean_ocr_text "Pay $50 now") = Some "$"%char.
Proof.
  apply (clean_ocr_text_keeps_currency_before_run "Pay $50 now" 4 "5" "0");
    reflexivity.
Defined.

(** ** Recognition: which pages make the text *)

Lemma ocr_page_result (w : World) (i : nat) (img : image w) (pages_text : list string)
    (st : state) :
  fst (try_except (ocr_page w i img pages_text) (fun _ => ret pages_text) st)
  = Returns (pages_text ++ present [recognised w img])%list.
Proof.
  unfold try_except, ocr_page, call, bind, lift, record, ret, recognised.
  destruct (convert w img "L") as [img1|e]; [|cbn; rewrite app_nil_r; reflexivity].
  destruct (enhance w Contrast img1 2) as [img2|e];
    [|cbn; rewrite app_nil_r; reflexivity].
  destruct (enhance w Sharpness img2 2) as [img3|e];
    [|cbn; rewrite app_nil_r; reflexivity].
  destruct (image_to_string w img3 custom_config) as [page_text|e];
    [|cbn; rewrite app_nil_r; reflexivity].
  destruct (is_empty (strip page_text)); cbn; [rewrite app_nil_r|]; reflexivity.
Qed.

(** The page loop collects, in page order, the texts of the pages that are
    recognised with a text that is not blank; the other pages are skipped. *)
Lemma ocr_loop_result (w : World) (images : list (image w)) :
  forall i pages_text st,
    fst (ocr_loop w images i pages_text st)
    = Returns (pages_text ++ present (map (recognised w) images))%list.
Proof.
  induction images as [|img rest IH]; intros i pages_text st.
  - cbn. rewrite app_nil_r. reflexivity.
  - cbn [ocr_loop]. unfold bind at 1.
    pose proof (ocr_page_result w i img pages_text st) as Hpage.
    destruct (try_except (ocr_page w i img pages_text) (fun _ => ret pages_text) st)
      as [r st1].
    cbn [fst] in Hpage. subst r. rewrite IH. cbn [map present].
    destruct (recognised w img); cbn [present]; rewrite <- app_assoc; reflexivity.
Qed.

(** X4.  The text returned by the recognition path, once the temporary file is
    written and rasterised: the texts of the recognised pages in page order,
    joined by a blank line, and nothing when no page is recognised, whether
    or not the temporary file can be removed afterwards. *)
Theorem extract_with_ocr_pages (w : World) (pdf_content : bytes) (st : state)
    (p : path) (images : list (image w)) :
  temp_name w (map fst (files st)) = Returns p ->
  on_disk p st = false ->
  write_fails w p pdf_content = false ->
  convert_from_path w pdf_content 400 = Returns images ->
  fst (_extract_with_ocr w pdf_content st)
  = Returns
      match present (map (recognised w) images) with
      | [] => None
      | (_ :: _) as pages => Some (String.concat (newline ++ newline) pages)
      end.
Proof.
  intros Hname Hfresh Hwrite Hconv.
  unfold _extract_with_ocr, try_except.
  unfold bind at 1. unfold bind at 1. unfold bind at 1.
  rewrite (NamedTemporaryFile_run w st p Hname Hfresh).
  rewrite write_run, Hwrite. cbn [files trace]. unfold ret at 1.
  unfold try_finally.
  unfold rasterize. unfold bind at 1. unfold bind at 1. unfold get_files.
  cbn [files lookup_file]. rewrite String.eqb_refl.
  unfold call, record, lift. unfold bind at 1. rewrite Hconv. unfold bind at 1.
  match goal with
  | |- context [ocr_loop w images 0 [] ?s] =>
      pose proof (ocr_loop_result w images 0 [] s) as Hloop;
        destruct (ocr_loop w images 0 [] s) as [r st1]
  end.
  cbn [fst app] in Hloop. subst r.
  destruct (present (map (recognised w) images)) as [|t ts]; unfold ret;
    (match goal with
     | |- context [unlink w p ?s] => destruct (unlink w p s) as [[u|e] st2]
     end); reflexivity.
Qed.

Lemma extract_with_ocr_pages_witness :
  fst (_extract_with_ocr
         (scripted (Returns []) (Returns [])
            (Returns [Returns "one"; Raises OtherError; Returns "  "; Returns "four"])
            false false)
         [] (initial []))
  = Returns (Some ("one" ++ newline ++ newline ++ "four")).
Proof.
  exact (extract_with_ocr_pages
           (scripted (Returns []) (Returns [])
              (Returns [Returns "one"; Raises OtherError; Returns "  "; Returns "four"])
              false false)
           [] (initial []) tmp0
           [Returns "one"; Raises OtherError; Returns "  "; Returns "four"]
           eq_refl eq_refl eq_refl eq_refl).
Defined.

(** ** Structured extraction: pages and failures *)

Lemma append_assoc (a b c : string) : (a ++ b) ++ c = a ++ (b ++ c).
Proof. induction a as [|x a IH]; [reflexivity|]. simpl. rewrite IH. reflexivity. Qed.

Lemma append_empty_r (a : string) : a ++ EmptyString = a.
Proof. induction a as [|x a IH]; [reflexivity|]. simpl. rewrite IH. reflexivity. Qed.

(** When every page can be read, the loop appends the page texts in order. *)
Lemma plumber_loop_reads (w : World) (pages : list (page w)) :
  forallb (page_reads w) pages = true ->
  forall i text st,
    fst (plumber_loop w pages i text st)
    = Returns (text ++ flatten (map (page_line w) pages)).
Proof.
  induction pages as [|pg rest IH]; intros Hall i text st.
  - cbn. rewrite append_empty_r. reflexivity.
  - cbn [forallb] in Hall. apply andb_true_iff in Hall. destruct Hall as [Hpg Hrest].
    cbn [plumber_loop map flatten]. unfold bind at 1. unfold call. unfold bind at 1.
    unfold record at 1. unfold lift. unfold page_line at 1.
    unfold page_reads in Hpg.
    destruct (extract_text w pg) as [[t|]|e]; [| |discriminate Hpg].
    + destruct (is_empty t); rewrite (IH Hrest); [reflexivity|].
      rewrite !append_assoc. reflexivity.
    + rewrite (IH Hrest). reflexivity.
Qed.

(** A page that cannot be read ends the loop with its exception. *)
Lemma plumber_loop_raises (w : World) (pages : list (page w)) :
  forallb (page_reads w) pages = false ->
  forall i text st, exists e, fst (plumber_loop w pages i text st) = Raises e.
Proof.
  induction pages as [|pg rest IH]; intros Hall i text st; [discriminate Hall|].
  cbn [forallb] in Hall.
  cbn [plumber_loop]. unfold bind at 1. unfold call. unfold bind at 1.
  unfold record at 1. unfold lift. unfold page_reads in Hall at 1.
  destruct (extract_text w pg) as [[t|]|e]; cbn [andb] in Hall.
  - destruct (is_empty t); apply IH; exact Hall.
  - apply IH; exact Hall.
  - exists e. reflexivity.
Qed.

(** X6.  Structured extraction of a document that opens.  If every page can be
    read, the result is the trimmed concatenation, in page order, of the page
    texts that are not empty, each followed by a newline.  If reading one
    page raises, the result is absent for the whole document, whatever the
    other pages hold. *)
Theorem extract_with_pdfplumber_pages (w : World) (pdf_content : bytes) (st : state)
    (pages : list (page w)) :
  pdfplumber_open w pdf_content = Returns pages ->
  fst (_extract_with_pdfplumber w pdf_content st)
  = Returns (if forallb (page_reads w) pages
             then Some (strip (flatten (map (page_line w) pages)))
             else None).
Proof.
  intros Hopen. unfold _extract_with_pdfplumber, try_except. unfold bind at 1.
  unfold call. unfold bind at 1. unfold record at 1. unfold lift. rewrite Hopen.
  unfold bind at 1.
  destruct (forallb (page_reads w) pages) eqn:Hall.
  - pose proof (plumber_loop_reads w pages Hall 1 EmptyString
                  (after st [EvPdfplumberOpen])) as H.
    destruct (plumber_loop w pages 1 EmptyString (after st [EvPdfplumberOpen]))
      as [r st1].
    cbn [fst] in H. subst r. reflexivity.
  - destruct (plumber_loop_raises w pages Hall 1 EmptyString
                (after st [EvPdfplumberOpen])) as [e H].
    destruct (plumber_loop w pages 1 EmptyString (after st [EvPdfplumberOpen]))
      as [r st1].
    cbn [fst] in H. subst r. reflexivity.
Qed.

(** Two pages with text and a third that cannot be read: nothing is
    returned. *)
Lemma extract_with_pdfplumber_pages_witness :
  fst (_extract_with_pdfplumber
         (scripted (Returns [])
            (Returns [Returns (Some "one"); Returns (Some "two"); Raises OtherError])
            (Returns []) false false)
         [] (initial []))
  = Returns None.
Proof.
  exact (extract_with_pdfplumber_pages
           (scripted (Returns [])
              (Returns [Returns (Some "one"); Returns (Some "two"); Raises OtherError])
              (Returns []) false false)
           [] (initial [])
           [Returns (Some "one"); Returns (Some "two"); Raises OtherError]
           eq_refl).
Defined.

(** ** The text returned by the extractor *)

Lemma same_spaces_refl (s : string) : same_spaces s s = true.
Proof.
  induction s as [|c s IH]; [reflexivity|]. simpl.
  rewrite IH, Bool.eqb_reflx. reflexivity.
Qed.

Lemma same_spaces_trans (s1 s2 s3 : string) :
  same_spaces s1 s2 = true -> same_spaces s2 s3 = true -> same_spaces s1 s3 = true.
Proof.
  revert s2 s3. induction s1 as [|a s1 IH]; intros [|b s2] [|c s3]; simpl;
    try discriminate; auto.
  intros H12 H23. apply andb_true_iff in H12, H23.
  destruct H12 as [Hab H12], H23 as [Hbc H23].
  apply Bool.eqb_prop in Hab, Hbc. rewrite Hab, Hbc, Bool.eqb_reflx.
  rewrite (IH s2 s3 H12 H23). reflexivity.
Qed.

Lemma same_spaces_length (s1 s2 : string) :
  same_spaces s1 s2 = true -> String.length s1 = String.length s2.
Proof.
  revert s2. induction s1 as [|a s1 IH]; intros [|b s2]; simpl;
    try discriminate; auto.
  intros H. apply andb_true_iff in H. destruct H as [_ H]. rewrite (IH s2 H).
  reflexivity.
Qed.

Lemma same_spaces_is_empty (s1 s2 : string) :
  same_spaces s1 s2 = true -> is_empty s1 = is_empty s2.
Proof. destruct s1, s2; simpl; try discriminate; auto. Qed.

Lemma same_spaces_lstrip (s1 s2 : string) :
  same_spaces s1 s2 = true -> same_spaces (lstrip s1) (lstrip s2) = true.
Proof.
  revert s2. induction s1 as [|a s1 IH]; intros [|b s2]; simpl;
    try discriminate; auto.
  intros H. apply andb_true_iff in H. destruct H as [Hab H].
  apply Bool.eqb_prop in Hab. rewrite Hab.
  destruct (Char.is_space b) eqn:Hb; [apply IH; exact H|].
  simpl. rewrite Hab, Hb, H. reflexivity.
Qed.

Lemma same_spaces_rstrip (s1 s2 : string) :
  same_spaces s1 s2 = true -> same_spaces (rstrip s1) (rstrip s2) = true.
Proof.
  revert s2. induction s1 as [|a s1 IH]; intros [|b s2]; simpl;
    try discriminate; auto.
  intros H. apply andb_true_iff in H. destruct H as [Hab H].
  apply Bool.eqb_prop in Hab. specialize (IH s2 H).
  rewrite (same_spaces_is_empty _ _ IH), Hab.
  destruct (is_empty (rstrip s2) && Char.is_space b); [reflexivity|].
  simpl. rewrite Hab, Bool.eqb_reflx. exact IH.
Qed.

Lemma same_spaces_strip_length (s1 s2 : string) :
  same_spaces s1 s2 = true ->
  String.length (strip s1) = String.length (strip s2).
Proof.
  intros H. apply same_spaces_length. unfold strip.
  apply same_spaces_rstrip, same_spaces_lstrip, H.
Qed.

(** A pass whose character and replacement are no white space keeps the white
    space where it is. *)
Lemma re_sub_same_spaces (f : ocr_fix) (s : string) :
  Char.is_space (fix_char f) = false -> Char.is_space (fix_new f) = false ->
  same_spaces (re_sub f s) s = true.
Proof.
  intros Hc Hn. unfold re_sub. generalize (@None ascii).
  induction s as [|c s IH]; intros before; [reflexivity|].
  simpl. rewrite IH. rewrite andb_true_r.
  unfold fix_hit. destruct (Ascii.eqb c (fix_char f)) eqn:E; simpl.
  - apply Ascii.eqb_eq in E. subst c.
    destruct (negb _ && negb _); [rewrite Hc, Hn|]; apply Bool.eqb_reflx.
  - apply Bool.eqb_reflx.
Qed.

Lemma clean_ocr_text_same_spaces (text : string) :
  same_spaces (_clean_ocr_text text) text = true.
Proof.
  rewrite fixes_unfold.
  repeat (eapply same_spaces_trans; [apply re_sub_same_spaces; reflexivity|]).
  apply same_spaces_refl.
Qed.

(** The cleanup does not change the trimmed length of a text. *)
Lemma clean_ocr_text_trimmed_length (text : string) :
  String.length (strip (_clean_ocr_text text)) = String.length (strip text).
Proof. apply same_spaces_strip_length, clean_ocr_text_same_spaces. Qed.

(** X7.  Whatever the world does, a text returned by [extract_from_pdf] has more
    than 200 characters once trimmed, on the structured path and on the
    recognition path alike. *)
Theorem extract_from_pdf_text_length (w : World) (url : string) (st st' : state)
    (d : text_data) :
  extract_from_pdf w url st = (Returns (Some d), st') ->
  200 < String.length (strip (text d)).
Proof.
  destruct (requests_get w url) as [pdf_content|e] eqn:Hget.
  - destruct (extract_with_pdfplumber_run w pdf_content (after st [EvGet url]))
      as (pdfplumber_text & evs & Hpl & _).
    rewrite (extract_from_pdf_fetched w url st _ pdf_content pdfplumber_text Hget Hpl).
    destruct (meaningful pdfplumber_text) eqn:Hm.
    + destruct pdfplumber_text as [t|]; [|discriminate Hm].
      intros [= <- _]. cbn [text]. simpl in Hm.
      apply andb_true_iff in Hm. destruct Hm as [_ Hm].
      apply Nat.ltb_lt in Hm. exact Hm.
    + destruct (ocr_fallback_run w pdf_content (after (after st [EvGet url]) evs))
        as (r & evs' & st2 & Hrun & _ & ocr_text & _ & Hr).
      rewrite Hrun. intros [= Hd _]. rewrite Hd in Hr.
      destruct ocr_text as [o|]; [|discriminate Hr].
      destruct (meaningful (Some o)) eqn:Hm'; [|discriminate Hr].
      injection Hr as ->. cbn [text]. rewrite clean_ocr_text_trimmed_length.
      simpl in Hm'. apply andb_true_iff in Hm'. destruct Hm' as [_ Hm'].
      apply Nat.ltb_lt in Hm'. exact Hm'.
  - unfold extract_from_pdf, try_except. unfold bind at 1.
    unfold call, bind, record, lift. rewrite Hget. unfold ret. discriminate.
Qed.

(** The structured text is too short, the recognised text is long enough. *)
Lemma extract_from_pdf_text_length_witness :
  200 < String.length (strip (_clean_ocr_text long_text)).
Proof.
  exact (extract_from_pdf_text_length
           (scripted (Returns []) (Returns [Returns (Some "page 1")])
              (Returns [Returns long_text]) false false)
           "https://dnr.example/order.pdf" (initial [])
           {| files := [];
              trace := [EvGet "https://dnr.example/order.pdf"; EvPdfplumberOpen;
                        EvExtractText 1; EvNamedTemporaryFile; EvWrite tmp0;
                        EvConvertFromPath tmp0 400; EvImageToString 0;
                        EvUnlink tmp0] |}
           {| text := _clean_ocr_text long_text |} eq_refl).
Defined.

(** ** The matcher is sound: what a match consists of *)

Lemma take_app (u s : string) : take (String.length u) (u ++ s) = u.
Proof. induction u as [|c u IH]; simpl; [destruct s|rewrite IH]; reflexivity. Qed.

Lemma drop_app (u s : string) : drop (String.length u) (u ++ s) = s.
Proof. induction u as [|c u IH]; simpl; auto. Qed.

Lemma drop_add (i n : nat) (s : string) : drop (i + n) s = drop n (drop i s).
Proof.
  revert s. induction i as [|i IH]; intros s; [reflexivity|].
  destruct s as [|c s]; simpl; [destruct n; reflexivity | apply IH].
Qed.

Lemma append_length (u v : string) :
  String.length (u ++ v) = String.length u + String.length v.
Proof. induction u as [|c u IH]; simpl; [|rewrite IH]; reflexivity. Qed.

Section Soundness.
Variable ic : bool.
Variable R : Type.

Lemma star_greedy_sound (a : atom) (k : string -> nat -> option R) (s : string) :
  forall i res,
    star_greedy ic a k s i = Some res ->
    exists u s',
      s = u ++ s' /\ all_chars (atom_matches ic a) u = true
      /\ k s' (i + String.length u) = Some res.
Proof.
  induction s as [|c s IH]; intros i res; simpl.
  - intros H. exists EmptyString, EmptyString. rewrite Nat.add_0_r. auto.
  - destruct (atom_matches ic a c) eqn:Ha.
    + destruct (star_greedy ic a k s (S i)) as [x|] eqn:E.
      * intros [= <-]. destruct (IH _ _ E) as (u & s' & -> & Hu & Hk).
        exists (String c u), s'. simpl. rewrite Ha, Hu.
        rewrite <- plus_n_Sm. auto.
      * intros H. exists EmptyString, (String c s). rewrite Nat.add_0_r. auto.
    + intros H. exists EmptyString, (String c s). rewrite Nat.add_0_r. auto.
Qed.

Lemma star_lazy_sound (a : atom) (k : string -> nat -> option R) (s : string) :
  forall i res,
    star_lazy ic a k s i = Some res ->
    exists u s',
      s = u ++ s' /\ all_chars (atom_matches ic a) u = true
      /\ k s' (i + String.length u) = Some res.
Proof.
  induction s as [|c s IH]; intros i res; simpl.
  - destruct (k EmptyString i) eqn:E; [|discriminate]. intros [= <-].
    exists EmptyString, EmptyString. rewrite Nat.add_0_r. auto.
  - destruct (k (String c s) i) eqn:E.
    + intros [= <-]. exists EmptyString, (String c s). rewrite Nat.add_0_r. auto.
    + destruct (atom_matches ic a c) eqn:Ha; [|discriminate].
      intros H. destruct (IH _ _ H) as (u & s' & -> & Hu & Hk).
      exists (String c u), s'. simpl. rewrite Ha, Hu. rewrite <- plus_n_Sm. auto.
Qed.

Lemma repeat_exact_sound (a : atom) (k : string -> nat -> option R) (n : nat) :
  forall s i res,
    repeat_exact ic a n k s i = Some res ->
    exists u s',
      s = u ++ s' /\ String.length u = n
      /\ all_chars (atom_matches ic a) u = true
      /\ k s' (i + String.length u) = Some res.
Proof.
  induction n as [|n IH]; intros s i res; simpl.
  - intros H. exists EmptyString, s. rewrite Nat.add_0_r. repeat split; auto.
  - destruct s as [|c s]; [discriminate|].
    destruct (atom_matches ic a c) eqn:Ha; [|discriminate].
    intros H. destruct (IH _ _ _ H) as (u & s' & -> & Hn & Hu & Hk).
    exists (String c u), s'. simpl. rewrite Ha, Hu. rewrite <- plus_n_Sm.
    repeat split; auto.
Qed.

(** A successful match consumes a text that the pattern derives, and calls
    the continuation on what follows it. *)
Lemma rmatch_sound (s0 : string) (r : regex) :
  forall s i g (k : string -> nat -> option span -> option R) res,
    drop i s0 = s ->
    rmatch ic r s i g k = Some res ->
    exists u s' g',
      s = u ++ s'
      /\ derives ic r u (captured s0 g) (captured s0 g')
      /\ k s' (i + String.length u) g' = Some res.
Proof.
  induction r as [a| |r1 IH1 r2 IH2|r1 IH1|a|a|a|n a|r1 IH1];
    intros s i g k res Hpos; simpl.
  - destruct s as [|c s]; [discriminate|].
    destruct (atom_matches ic a c) eqn:Ha; [|discriminate].
    intros H. exists (String c EmptyString), s, g. simpl.
    rewrite Nat.add_1_r. repeat split; auto. constructor. exact Ha.
  - intros H. exists EmptyString, s, g. rewrite Nat.add_0_r.
    repeat split; auto. constructor.
  - intros H. destruct (IH1 _ _ _ _ _ Hpos H) as (u1 & s1 & g1 & -> & D1 & H1).
    assert (Hpos1 : drop (i + String.length u1) s0 = s1).
    { rewrite drop_add, Hpos. apply drop_app. }
    destruct (IH2 _ _ _ _ _ Hpos1 H1) as (u2 & s2 & g2 & -> & D2 & H2).
    exists (u1 ++ u2), s2, g2. rewrite append_assoc, append_length, Nat.add_assoc.
    repeat split; auto. econstructor; eauto.
  - destruct (rmatch ic r1 s i g k) as [x|] eqn:E.
    + intros [= <-]. destruct (IH1 _ _ _ _ _ Hpos E) as (u & s' & g' & -> & D & H).
      exists u, s', g'. repeat split; auto. constructor. exact D.
    + intros H. exists EmptyString, s, g. rewrite Nat.add_0_r.
      repeat split; auto. apply D_opt_skip.
  - destruct s as [|c s]; [discriminate|].
    destruct (atom_matches ic a c) eqn:Ha; [|discriminate].
    intros H. apply star_greedy_sound in H. destruct H as (u & s' & -> & Hu & H).
    exists (String c u), s', g. simpl. rewrite <- plus_n_Sm.
    repeat split; auto. apply D_plus; [reflexivity|]. simpl. rewrite Ha, Hu.
    reflexivity.
  - intros H. apply star_greedy_sound in H. destruct H as (u & s' & -> & Hu & H).
    exists u, s', g. repeat split; auto. constructor. exact Hu.
  - intros H. apply star_lazy_sound in H. destruct H as (u & s' & -> & Hu & H).
    exists u, s', g. repeat split; auto. constructor. exact Hu.
  - intros H. apply repeat_exact_sound in H.
    destruct H as (u & s' & -> & Hn & Hu & H).
    exists u, s', g. repeat split; auto. constructor; assumption.
  - intros H. destruct (IH1 _ _ _ _ _ Hpos H) as (u & s' & g1 & -> & D & H1).
    exists u, s', (Some (i, i + String.length u)). repeat split; auto.
    unfold captured at 2. cbn [option_map fst snd].
    replace (i + String.length u - i) with (String.length u) by lia.
    rewrite Hpos, take_app. econstructor. exact D.
Qed.

End Soundness.

Lemma match_here_sound (ic : bool) (r : regex) (s : string) (m : match_obj) :
  match_here ic r s = Some m ->
  exists u s', s = u ++ s' /\ derives ic r u None (group1 m).
Proof.
  unfold match_here. intros H.
  apply (rmatch_sound ic match_obj s r s 0 None) in H; [|reflexivity].
  destruct H as (u & s' & g' & -> & D & H). injection H as <-.
  exists u, s'. split; [reflexivity|]. exact D.
Qed.

Lemma search_sound (ic : bool) (r : regex) (text : string) (m : match_obj) :
  search ic r text = Some m ->
  exists u, occurs_in u text /\ derives ic r u None (group1 m).
Proof.
  induction text as [|c text IH]; simpl.
  - destruct (match_here ic r EmptyString) as [x|] eqn:E; [|discriminate].
    intros [= <-]. destruct (match_here_sound _ _ _ _ E) as (u & s' & Hs & D).
    exists u. split; [|exact D]. exists EmptyString, s'. exact Hs.
  - destruct (match_here ic r (String c text)) as [x|] eqn:E.
    + intros [= <-]. destruct (match_here_sound _ _ _ _ E) as (u & s' & Hs & D).
      exists u. split; [|exact D]. exists EmptyString, s'. exact Hs.
    + intros H. destruct (IH H) as (u & (pre & post & Hu) & D).
      exists u. split; [|exact D]. exists (String c pre), post. simpl.
      rewrite Hu. reflexivity.
Qed.

(** ** The captured numeral *)

Lemma occurs_in_refl (u : string) : occurs_in u u.
Proof. exists EmptyString, EmptyString. simpl. rewrite append_empty_r. reflexivity. Qed.

Lemma occurs_in_app_l (v u1 u2 : string) : occurs_in v u1 -> occurs_in v (u1 ++ u2).
Proof.
  intros (pre & post & ->). exists pre, (post ++ u2).
  rewrite !append_assoc. reflexivity.
Qed.

Lemma occurs_in_app_r (v u1 u2 : string) : occurs_in v u2 -> occurs_in v (u1 ++ u2).
Proof.
  intros (pre & post & ->). exists (u1 ++ pre), post.
  rewrite !append_assoc. reflexivity.
Qed.

Lemma occurs_in_trans (v u t : string) :
  occurs_in v u -> occurs_in u t -> occurs_in v t.
Proof.
  intros Hv (pre & post & ->). apply occurs_in_app_r, occurs_in_app_l, Hv.
Qed.

(** The text captured by a match is the text matched by one of the groups of
    the pattern, and it lies inside the match. *)
Lemma derives_group (ic : bool) (r : regex) (u : string) (c c' : option string) :
  derives ic r u c c' ->
  c' = c
  \/ exists body v c1 c2,
       In body (groups r) /\ c' = Some v /\ derives ic body v c1 c2
       /\ occurs_in v u.
Proof.
  induction 1 as [a x c Ha|c|r1 r2 u1 u2 c c1 c2 D1 IH1 D2 IH2|r u c c' D IH|r c
                 |a u c Hne Hu|a u c Hu|a u c Hu|n a u c Hn Hu|r u c c' D IH];
    auto.
  - destruct IH2 as [-> | (body & v & d1 & d2 & Hin & -> & Hd & Hocc)].
    + destruct IH1 as [-> | (body & v & d1 & d2 & Hin & -> & Hd & Hocc)]; [auto|].
      right. exists body, v, d1, d2. cbn [groups]. rewrite in_app_iff.
      repeat split; auto. apply occurs_in_app_l, Hocc.
    + right. exists body, v, d1, d2. cbn [groups]. rewrite in_app_iff.
      repeat split; auto. apply occurs_in_app_r, Hocc.
  - right. exists r, u, c, c'. cbn [groups In].
    repeat split; auto. apply occurs_in_refl.
Qed.

Lemma all_chars_impl (p q : ascii -> bool) (s : string) :
  (forall x, p x = true -> q x = true) ->
  all_chars p s = true -> all_chars q s = true.
Proof.
  intros Hpq. induction s as [|c s IH]; [reflexivity|]. simpl.
  intros H. apply andb_true_iff in H. destruct H as [Hc Hs].
  rewrite (Hpq c Hc), (IH Hs). reflexivity.
Qed.

(** Facts that are checked on each of the 256 characters. *)
Ltac each_char x := destruct x as [[|] [|] [|] [|] [|] [|] [|] [|]].

Lemma amount_class (x : ascii) :
  atom_matches true (OneOf [IDigit; IChar ","]) x = true -> numeral_s5 x = true.
Proof. each_char x; vm_compute; auto. Qed.

Lemma amount_s5_class (x : ascii) :
  atom_matches true (OneOf [IChar "S"; IChar "5"; IDigit; IChar ","]) x = true ->
  numeral_s5 x = true.
Proof. each_char x; vm_compute; auto. Qed.

Lemma point_class (x : ascii) : atom_matches true (Lit ".") x = true -> x = "."%char.
Proof. each_char x; vm_compute; intros H; try discriminate H; reflexivity. Qed.

(** The optional fraction of a numeral: nothing, or "." and two digits. *)
Lemma fraction_shape (f : string) (c c' : option string) :
  derives true (Opt (Seq (Atom (Lit ".")) (Rep 2 Digit))) f c c' ->
  f = EmptyString
  \/ exists x y, f = String "." (String x (String y EmptyString))
                 /\ Char.is_digit x = true /\ Char.is_digit y = true.
Proof.
  intros D. inversion D as [| | |r u d d' D1| | | | | |]; subst; [|auto].
  right. inversion D1 as [| |r1 r2 u1 u2 d0 d1 d2 Da Dr| | | | | | |]; subst.
  inversion Da as [a x d Hx| | | | | | | | |]; subst.
  apply point_class in Hx. subst x.
  inversion Dr as [| | | | | | | |n a u d Hn Hu|]; subst.
  destruct u2 as [|x [|y [|z w]]]; try discriminate Hn.
  simpl in Hu. apply andb_true_iff in Hu. destruct Hu as [Hx Hy].
  apply andb_true_iff in Hy. destruct Hy as [Hy _].
  exists x, y. auto.
Qed.

Lemma amount_shape (ic : bool) (v : string) (c c' : option string) :
  derives true amount v c c' -> numeral_shape v.
Proof.
  intros D. inversion D as [| |r1 r2 d f c0 c1 c2 Dd Df| | | | | | |]; subst.
  inversion Dd as [| | | | |a u c0 Hne Hu| | | |]; subst.
  exists d, f. repeat split; auto.
  - apply (all_chars_impl _ _ _ amount_class Hu).
  - eapply fraction_shape; eauto.
Qed.

Lemma amount_s5_shape (ic : bool) (v : string) (c c' : option string) :
  derives true amount_s5 v c c' -> numeral_shape v.
Proof.
  intros D. inversion D as [| |r1 r2 d f c0 c1 c2 Dd Df| | | | | | |]; subst.
  inversion Dd as [| | | | |a u c0 Hne Hu| | | |]; subst.
  exists d, f. repeat split; auto.
  - apply (all_chars_impl _ _ _ amount_s5_class Hu).
  - eapply fraction_shape; eauto.
Qed.

(** Every group of the table is one of the two numeral patterns. *)
Lemma table_groups :
  Forall (fun p => Forall (fun body => body = amount \/ body = amount_s5) (groups p))
    PENALTY_PATTERNS.
Proof.
  unfold PENALTY_PATTERNS.
  repeat (apply Forall_cons || apply Forall_nil);
    cbn; repeat (apply Forall_cons || apply Forall_nil); auto.
Qed.

(** What a pattern of the table captures is a numeral that occurs in the
    text. *)
Lemma table_capture (p : regex) (text : string) (m : match_obj) (g : string) :
  In p PENALTY_PATTERNS ->
  search true p text = Some m -> group1 m = Some g ->
  occurs_in g text /\ numeral_shape g.
Proof.
  intros Hin Hs Hg. destruct (search_sound _ _ _ _ Hs) as (u & Hu & D).
  rewrite Hg in D. apply derives_group in D.
  destruct D as [D | (body & v & c1 & c2 & Hb & Hv & Hd & Hocc)]; [discriminate D|].
  injection Hv as <-. split; [eapply occurs_in_trans; eauto|].
  pose proof table_groups as HT. rewrite Forall_forall in HT.
  specialize (HT p Hin). rewrite Forall_forall in HT.
  destruct (HT body Hb) as [-> | ->].
  - eapply (amount_shape true); eauto.
  - eapply (amount_s5_shape true); eauto.
Qed.

(** ** From the captured numeral to the amount *)

Lemma rstrip_id (s : string) :
  all_chars (fun c => negb (Char.is_space c)) s = true -> rstrip s = s.
Proof.
  induction s as [|c s IH]; [reflexivity|]. simpl. intros H.
  apply andb_true_iff in H. destruct H as [Hc Hs]. rewrite (IH Hs).
  apply negb_true_iff in Hc. rewrite Hc, andb_false_r. reflexivity.
Qed.

Lemma strip_id (s : string) :
  all_chars (fun c => negb (Char.is_space c)) s = true -> strip s = s.
Proof.
  intros H. unfold strip. destruct s as [|c s]; [reflexivity|].
  pose proof H as H'. simpl in H'. apply andb_true_iff in H'. destruct H' as [Hc _].
  apply negb_true_iff in Hc. simpl. rewrite Hc. apply rstrip_id. exact H.
Qed.

Lemma all_chars_app (p : ascii -> bool) (u v : string) :
  all_chars p (u ++ v) = all_chars p u && all_chars p v.
Proof.
  induction u as [|c u IH]; [reflexivity|]. simpl. rewrite IH, andb_assoc.
  reflexivity.
Qed.

Lemma numeral_s5_no_space (x : ascii) :
  numeral_s5 x = true -> negb (Char.is_space x) = true.
Proof. each_char x; vm_compute; auto. Qed.

Lemma digit_no_space (x : ascii) :
  Char.is_digit x = true -> negb (Char.is_space x) = true.
Proof. each_char x; vm_compute; auto. Qed.

(** A captured numeral has no white space: [strip] leaves it as it is. *)
Lemma numeral_strip (g : string) : numeral_shape g -> strip g = g.
Proof.
  intros (d & f & -> & _ & Hd & Hf). apply strip_id. rewrite all_chars_app.
  rewrite (all_chars_impl _ _ _ numeral_s5_no_space Hd).
  destruct Hf as [-> | (x & y & -> & Hx & Hy)]; [reflexivity|].
  simpl. rewrite (digit_no_space x Hx), (digit_no_space y Hy). reflexivity.
Qed.

(** The cleanup works character by character. *)
Lemma cleaned_cons (c : ascii) (s : string) :
  cleaned (String c s) = piece c ++ cleaned s.
Proof. each_char c; reflexivity. Qed.

(** The numeral behind an amount. *)
Lemma settlement_numeral (text : string) (a : Q) :
  extract_settlement (Some {| text := text |}) = Returns (Some a) ->
  exists g, occurs_in g text /\ numeral_shape g /\ parse_amount g = Returns a.
Proof.
  change (extract_settlement (Some {| text := text |}))
    with (settlement_loop PENALTY_PATTERNS text).
  intros H. apply settlement_loop_some in H; [|exact table_sets_group].
  destruct H as (pre & p & post & g & Heq & _ & Hf).
  assert (Hin : In p PENALTY_PATTERNS).
  { rewrite Heq. apply in_or_app. right. left. reflexivity. }
  unfold finding_of in Hf.
  destruct (search true p text) as [m|] eqn:Hs; [|discriminate Hf].
  destruct (group1 m) as [g0|] eqn:Hg; [|discriminate Hf].
  destruct (parse_amount (strip g0)) as [a0|e] eqn:Hp; [|discriminate Hf].
  injection Hf as -> ->.
  destruct (table_capture p text m g Hin Hs Hg) as [Hocc Hshape].
  exists g. rewrite (numeral_strip g Hshape) in Hp. auto.
Qed.

(** X8.  Every amount returned by [extract_settlement] is read from a numeral that
    stands in the text: one or more characters among the digits, the comma
    and the letter S in either case, followed by nothing or by "." and two
    digits. *)
Theorem extract_settlement_numeral (text : string) (a : Q) :
  extract_settlement (Some {| text := text |}) = Returns (Some a) ->
  exists g, occurs_in g text /\ numeral_shape g /\ parse_amount g = Returns a.
Proof. exact (settlement_numeral text a). Qed.

Lemma extract_settlement_numeral_witness :
  exists g,
    occurs_in g priority_sample /\ numeral_shape g
    /\ parse_amount g = Returns 500%Q.
Proof.
  exact (extract_settlement_numeral priority_sample 500%Q eq_refl).
Defined.

(** ** Letter case *)

Lemma lower_idem (c : ascii) : Char.lower (Char.lower c) = Char.lower c.
Proof. each_char c; reflexivity. Qed.

Lemma is_digit_lower (c : ascii) : Char.is_digit (Char.lower c) = Char.is_digit c.
Proof. each_char c; reflexivity. Qed.

Lemma is_space_lower (c : ascii) : Char.is_space (Char.lower c) = Char.is_space c.
Proof. each_char c; reflexivity. Qed.

Lemma is_newline_lower (c : ascii) :
  Char.is_newline (Char.lower c) = Char.is_newline c.
Proof. each_char c; reflexivity. Qed.

Lemma item_matches_lower (it : item) (c : ascii) :
  item_matches true it (Char.lower c) = item_matches true it c.
Proof.
  destruct it; simpl; unfold char_matches;
    rewrite ?lower_idem, ?is_digit_lower, ?is_space_lower; reflexivity.
Qed.

(** Under [re.IGNORECASE] no atom of the table tells a capital from its small
    letter. *)
Lemma atom_matches_lower (a : atom) (c : ascii) :
  atom_matches true a (Char.lower c) = atom_matches true a c.
Proof.
  destruct a as [p| | | |items]; simpl; unfold char_matches;
    rewrite ?lower_idem, ?is_digit_lower, ?is_space_lower, ?is_newline_lower;
    try reflexivity.
  induction items as [|it items IH]; [reflexivity|]. simpl.
  rewrite item_matches_lower, IH. reflexivity.
Qed.

Section Lowered.
Variables A B : Type.
Variable rel : A -> B -> Prop.

Lemma star_greedy_lowers (a : atom) (k1 : string -> nat -> option A)
    (k2 : string -> nat -> option B) :
  (forall s i, orel rel (k1 s i) (k2 (lowers s) i)) ->
  forall s i, orel rel (star_greedy true a k1 s i) (star_greedy true a k2 (lowers s) i).
Proof.
  intros Hk. induction s as [|c s IH]; intros i; simpl; [apply (Hk EmptyString)|].
  rewrite atom_matches_lower.
  destruct (atom_matches true a c); [|apply (Hk (String c s))].
  specialize (IH (S i)).
  destruct (star_greedy true a k1 s (S i)), (star_greedy true a k2 (lowers s) (S i));
    simpl in IH; try contradiction; [exact IH|].
  apply (Hk (String c s)).
Qed.

Lemma star_lazy_lowers (a : atom) (k1 : string -> nat -> option A)
    (k2 : string -> nat -> option B) :
  (forall s i, orel rel (k1 s i) (k2 (lowers s) i)) ->
  forall s i, orel rel (star_lazy true a k1 s i) (star_lazy true a k2 (lowers s) i).
Proof.
  intros Hk. induction s as [|c s IH]; intros i; simpl.
  - pose proof (Hk EmptyString i) as H. simpl in H.
    destruct (k1 EmptyString i), (k2 EmptyString i); simpl in *; auto.
  - pose proof (Hk (String c s) i) as H. simpl in H.
    destruct (k1 (String c s) i), (k2 (String (Char.lower c) (lowers s)) i);
      simpl in *; try contradiction; auto.
    rewrite atom_matches_lower.
    destruct (atom_matches true a c); [apply IH | exact I].
Qed.

Lemma repeat_exact_lowers (a : atom) (k1 : string -> nat -> option A)
    (k2 : string -> nat -> option B) :
  (forall s i, orel rel (k1 s i) (k2 (lowers s) i)) ->
  forall n s i,
    orel rel (repeat_exact true a n k1 s i) (repeat_exact true a n k2 (lowers s) i).
Proof.
  intros Hk. induction n as [|n IH]; intros s i; simpl; [apply Hk|].
  destruct s as [|c s]; simpl; [exact I|].
  rewrite atom_matches_lower.
  destruct (atom_matches true a c); [apply IH | exact I].
Qed.

(** Matching a text and matching it in small letters succeed together, with
    the same span for group 1. *)
Lemma rmatch_lowers (r : regex) :
  forall (k1 : string -> nat -> option span -> option A)
         (k2 : string -> nat -> option span -> option B),
    (forall s i g, orel rel (k1 s i g) (k2 (lowers s) i g)) ->
    forall s i g, orel rel (rmatch true r s i g k1) (rmatch true r (lowers s) i g k2).
Proof.
  induction r as [a| |r1 IH1 r2 IH2|r1 IH1|a|a|a|n a|r1 IH1];
    intros k1 k2 Hk s i g; simpl.
  - destruct s as [|c s]; simpl; [exact I|].
    rewrite atom_matches_lower.
    destruct (atom_matches true a c); [apply Hk | exact I].
  - apply Hk.
  - apply IH1. intros s' i' g'. apply IH2. exact Hk.
  - pose proof (IH1 k1 k2 Hk s i g) as H.
    destruct (rmatch true r1 s i g k1), (rmatch true r1 (lowers s) i g k2);
      simpl in H; try contradiction; [exact H | apply Hk].
  - destruct s as [|c s]; simpl; [exact I|].
    rewrite atom_matches_lower.
    destruct (atom_matches true a c); [|exact I].
    apply star_greedy_lowers. intros s' i'. apply Hk.
  - apply star_greedy_lowers. intros s' i'. apply Hk.
  - apply star_lazy_lowers. intros s' i'. apply Hk.
  - apply repeat_exact_lowers. intros s' i'. apply Hk.
  - apply IH1. intros s' i' g'. apply Hk.
Qed.

End Lowered.

Lemma take_lowers (n : nat) (s : string) : take n (lowers s) = lowers (take n s).
Proof.
  revert s. induction n as [|n IH]; intros [|c s]; simpl; try reflexivity.
  rewrite IH. reflexivity.
Qed.

Lemma drop_lowers (n : nat) (s : string) : drop n (lowers s) = lowers (drop n s).
Proof.
  revert s. induction n as [|n IH]; intros [|c s]; simpl; try reflexivity.
  apply IH.
Qed.

Lemma match_here_lowers (r : regex) (s : string) :
  orel lowered_match (match_here true r s) (match_here true r (lowers s)).
Proof.
  unfold match_here. apply rmatch_lowers. intros s' i g. simpl.
  unfold lowered_match. simpl. destruct g as [[b e]|]; simpl; [|reflexivity].
  rewrite drop_lowers, take_lowers. reflexivity.
Qed.

Lemma search_lowers (r : regex) (text : string) :
  orel lowered_match (search true r text) (search true r (lowers text)).
Proof.
  induction text as [|c text IH].
  - pose proof (match_here_lowers r EmptyString) as H. simpl in *.
    destruct (match_here true r EmptyString), (match_here true r EmptyString);
      simpl in *; auto.
  - pose proof (match_here_lowers r (String c text)) as H.
    cbn [search lowers] in *.
    destruct (match_here true r (String c text)),
             (match_here true r (String (Char.lower c) (lowers text)));
      simpl in H; try contradiction; [exact H | exact IH].
Qed.

Lemma lstrip_lowers (s : string) : lstrip (lowers s) = lowers (lstrip s).
Proof.
  induction s as [|c s IH]; [reflexivity|]. simpl. rewrite is_space_lower.
  destruct (Char.is_space c); [exact IH | reflexivity].
Qed.

Lemma rstrip_lowers (s : string) : rstrip (lowers s) = lowers (rstrip s).
Proof.
  induction s as [|c s IH]; [reflexivity|]. simpl. rewrite is_space_lower, IH.
  assert (is_empty (lowers (rstrip s)) = is_empty (rstrip s)) as ->
      by (destruct (rstrip s); reflexivity).
  destruct (is_empty (rstrip s) && Char.is_space c); reflexivity.
Qed.

Lemma strip_lowers (s : string) : strip (lowers s) = lowers (strip s).
Proof. unfold strip. rewrite lstrip_lowers, rstrip_lowers. reflexivity. Qed.

Lemma piece_lower (c : ascii) : piece (Char.lower c) = piece c.
Proof. each_char c; reflexivity. Qed.

Lemma cleaned_lowers (s : string) : cleaned (lowers s) = cleaned s.
Proof.
  induction s as [|c s IH]; [reflexivity|]. cbn [lowers].
  rewrite !cleaned_cons, piece_lower, IH. reflexivity.
Qed.

Lemma parse_amount_lowers (s : string) : parse_amount (lowers s) = parse_amount s.
Proof.
  change (float (cleaned (lowers s)) = float (cleaned s)).
  rewrite cleaned_lowers. reflexivity.
Qed.

Lemma settlement_loop_lowers (patterns : list regex) (text : string) :
  settlement_loop patterns (lowers text) = settlement_loop patterns text.
Proof.
  induction patterns as [|p rest IH]; [reflexivity|]. cbn [settlement_loop].
  pose proof (search_lowers p text) as H.
  destruct (search true p text) as [m1|], (search true p (lowers text)) as [m2|];
    simpl in H; try contradiction; [|exact IH].
  unfold lowered_match in H. rewrite H.
  destruct (group1 m1) as [g|]; simpl; [|reflexivity].
  rewrite strip_lowers, parse_amount_lowers, IH. reflexivity.
Qed.

(** X10.  The amount does not depend on the case of the letters: two texts that are
    equal once their capitals are made small give the same result. *)
Theorem extract_settlement_ignores_case (text1 text2 : string) :
  lowers text1 = lowers text2 ->
  extract_settlement (Some {| text := text1 |})
  = extract_settlement (Some {| text := text2 |}).
Proof.
  intros H.
  change (settlement_loop PENALTY_PATTERNS text1
          = settlement_loop PENALTY_PATTERNS text2).
  rewrite <- (settlement_loop_lowers _ text1), <- (settlement_loop_lowers _ text2), H.
  reflexivity.
Qed.

Lemma extract_settlement_ignores_case_witness :
  extract_settlement (Some {| text := "SHALL PAY A CIVIL PENALTY OF $7,500.00" |})
  = extract_settlement (Some {| text := "Shall pay a civil penalty of $7,500.00" |}).
Proof.
  exact (extract_settlement_ignores_case
           "SHALL PAY A CIVIL PENALTY OF $7,500.00"
           "Shall pay a civil penalty of $7,500.00" eq_refl).
Defined.

(** ** The scraper: one row of the results table *)

Lemma extract_settlement_returns (td : option text_data) :
  exists r, extract_settlement td = Returns r.
Proof.
  destruct td as [d|]; [|exists None; reflexivity].
  apply settlement_loop_returns. exact table_sets_group.
Qed.

Lemma six_cols (cols : row) :
  Nat.ltb (List.length cols) 6 = false ->
  exists c0 c1 c2 c3 c4 c5 more, cols = c0 :: c1 :: c2 :: c3 :: c4 :: c5 :: more.
Proof.
  intros H. apply Nat.ltb_ge in H.
  destruct cols as [|c0 [|c1 [|c2 [|c3 [|c4 [|c5 more]]]]]]; simpl in H; try lia.
  repeat eexists.
Qed.

(** The run of [_process_row] on a row of six columns or more whose first
    column holds a link. *)
Lemma process_row_run (w : World) (cols : row) (st : state) (col0 : cell)
    (href : string) :
  Nat.ltb (List.length cols) 6 = false ->
  nth_error cols 0 = Some col0 ->
  cell_anchor col0 = Some (Some href) ->
  _process_row w cols st
  = match extract_from_pdf w (download_url_of href) st with
    | (Returns (Some d), st') =>
        match extract_settlement (Some d), year_of cols with
        | Returns s, Returns y =>
            (Returns (Some (record_of cols (download_url_of href) s y)), st')
        | _, _ => (Returns None, st')
        end
    | (_, st') => (Returns None, st')
    end.
Proof.
  intros Hlen H0 Ha.
  destruct (six_cols cols Hlen) as (c0 & c1 & c2 & c3 & c4 & c5 & more & ->).
  injection H0 as <-.
  unfold _process_row, try_except. rewrite Hlen.
  unfold bind at 1. unfold lift at 1. cbn [getitem nth_error]. rewrite Ha.
  unfold bind at 1. unfold lift at 1. cbn [href_of].
  unfold bind at 1. unfold lift at 1. cbn [getitem nth_error].
  unfold bind at 1.
  destruct (extract_from_pdf w (download_url_of href) st) as [[[d|]|e] st'];
    try reflexivity.
  unfold bind at 1. unfold lift at 1.
  destruct (extract_settlement (Some d)) as [s|e]; [|reflexivity].
  unfold bind at 1. unfold lift at 1.
  destruct (year_of (c0 :: c1 :: c2 :: c3 :: c4 :: c5 :: more)) as [y|e];
    reflexivity.
Qed.

(** The rows that are passed over before any outside call. *)
Lemma process_row_passed_over (w : World) (cols : row) (st : state) :
  List.length cols < 6
  \/ (exists col0, nth_error cols 0 = Some col0
                   /\ (cell_anchor col0 = None \/ cell_anchor col0 = Some None)) ->
  _process_row w cols st = (Returns None, st).
Proof.
  intros H. unfold _process_row, try_except.
  destruct (Nat.ltb (List.length cols) 6) eqn:Hlen; [reflexivity|].
  destruct H as [H | (col0 & H0 & Ha)]; [apply Nat.ltb_ge in Hlen; lia|].
  unfold bind at 1. unfold lift at 1. unfold getitem. rewrite H0.
  destruct Ha as [-> | ->]; reflexivity.
Qed.

(** X11.  A row with fewer than six columns, or without a link in its first
    column, or with a link that has no [href], gives no record, and nothing is
    fetched for it: the state is left as it was. *)
Theorem process_row_rejects (w : World) (cols : row) (st : state) :
  List.length cols < 6
  \/ (exists col0, nth_error cols 0 = Some col0
                   /\ (cell_anchor col0 = None \/ cell_anchor col0 = Some None)) ->
  _process_row w cols st = (Returns None, st).
Proof. exact (process_row_passed_over w cols st). Qed.

Lemma process_row_rejects_witness :
  _process_row
    (scripted (Returns []) (Returns []) (Returns []) false false)
    [ {| cell_text := "Order"; cell_anchor := Some None |};
      {| cell_text := "a"; cell_anchor := None |};
      {| cell_text := "01/02/2020"; cell_anchor := None |};
      {| cell_text := "b"; cell_anchor := None |};
      {| cell_text := "notes"; cell_anchor := None |};
      {| cell_text := "ACME"; cell_anchor := None |} ]
    (initial [])
  = (Returns None, initial []).
Proof.
  apply process_row_rejects. right.
  exists {| cell_text := "Order"; cell_anchor := Some None |}.
  split; [reflexivity | right; reflexivity].
Defined.

(** X12.  A record is made only for a row of six columns or more with a link,
    whose document gave a text. Its link is the URL that was fetched, its
    settlement is what [extract_settlement] finds in that text, absent or not,
    its year is read from the third column, and the only effects of the row are
    those of the extraction. *)
Theorem process_row_record (w : World) (cols : row) (st st' : state)
    (v : Violation) :
  _process_row w cols st = (Returns (Some v), st') ->
  exists col0 href d,
    6 <= List.length cols
    /\ nth_error cols 0 = Some col0 /\ cell_anchor col0 = Some (Some href)
    /\ extract_from_pdf w (download_url_of href) st = (Returns (Some d), st')
    /\ extract_settlement (Some d) = Returns (settlement v)
    /\ year_of cols = Returns (year v)
    /\ v = record_of cols (download_url_of href) (settlement v) (year v).
Proof.
  intros H.
  destruct (Nat.ltb (List.length cols) 6) eqn:Hlen.
  - rewrite process_row_passed_over in H; [discriminate H|].
    left. apply Nat.ltb_lt. exact Hlen.
  - destruct (six_cols cols Hlen) as (c0 & c1 & c2 & c3 & c4 & c5 & more & Hcols).
    assert (H0 : nth_error cols 0 = Some c0) by (rewrite Hcols; reflexivity).
    destruct (cell_anchor c0) as [[href|]|] eqn:Ha.
    + rewrite (process_row_run w cols st c0 href Hlen H0 Ha) in H.
      destruct (extract_from_pdf w (download_url_of href) st) as [[[d|]|e] st1]
        eqn:Hx; try discriminate H.
      destruct (extract_settlement (Some d)) as [s|e] eqn:Hs; [|discriminate H].
      destruct (year_of cols) as [y|e] eqn:Hy; [|discriminate H].
      injection H as <- <-. exists c0, href, d. cbn [settlement year record_of].
      apply Nat.ltb_ge in Hlen. repeat split; auto.
    + rewrite process_row_passed_over in H; [discriminate H|].
      right. exists c0. auto.
    + rewrite process_row_passed_over in H; [discriminate H|].
      right. exists c0. auto.
Qed.

Lemma process_row_record_witness :
  exists col0 href d,
    6 <= List.length (order_row "./Download?id=1" "01/02/2020")
    /\ nth_error (order_row "./Download?id=1" "01/02/2020") 0 = Some col0
    /\ cell_anchor col0 = Some (Some href)
    /\ extract_from_pdf order_world (download_url_of href) (initial [])
       = (Returns (Some d),
          snd (_process_row order_world (order_row "./Download?id=1" "01/02/2020")
                 (initial [])))
    /\ extract_settlement (Some d) = Returns (settlement (order_record "1" 2020))
    /\ year_of (order_row "./Download?id=1" "01/02/2020")
       = Returns (year (order_record "1" 2020))
    /\ order_record "1" 2020
       = record_of (order_row "./Download?id=1" "01/02/2020") (download_url_of href)
           (settlement (order_record "1" 2020)) (year (order_record "1" 2020)).
Proof.
  apply (process_row_record order_world (order_row "./Download?id=1" "01/02/2020")
           (initial [])).
  vm_compute. reflexivity.
Defined.

(** X13.  A row whose date cannot be read gives no record, but only after its
    document was fetched and read: the state is the one left by
    [extract_from_pdf]. *)
Theorem process_row_bad_date (w : World) (cols : row) (st : state) (col0 : cell)
    (href : string) (e : exn) :
  6 <= List.length cols ->
  nth_error cols 0 = Some col0 ->
  cell_anchor col0 = Some (Some href) ->
  year_of cols = Raises e ->
  _process_row w cols st
  = (Returns None, snd (extract_from_pdf w (download_url_of href) st)).
Proof.
  intros Hlen H0 Ha Hy. apply Nat.ltb_ge in Hlen.
  rewrite (process_row_run w cols st col0 href Hlen H0 Ha), Hy.
  destruct (extract_from_pdf w (download_url_of href) st) as [[[d|]|e'] st'];
    try reflexivity.
  destruct (extract_settlement (Some d)); reflexivity.
Qed.

Lemma process_row_bad_date_witness :
  _process_row order_world (order_row "./Download?id=1" "2020-01-02") (initial [])
  = (Returns None,
     snd (extract_from_pdf order_world (download_url_of "./Download?id=1")
            (initial []))).
Proof.
  apply (process_row_bad_date order_world (order_row "./Download?id=1" "2020-01-02")
           (initial [])
           {| cell_text := "Order"; cell_anchor := Some (Some "./Download?id=1") |}
           "./Download?id=1" OtherError).
  - simpl. lia.
  - reflexivity.
  - reflexivity.
  - reflexivity.
Defined.

(** ** The scraper: the link and the year of a record *)

Lemma prefix_empty (s : string) : String.prefix EmptyString s = true.
Proof. destruct s; reflexivity. Qed.

Lemma prefix_cons (a b : ascii) (s1 s2 : string) :
  String.prefix (String a s1) (String b s2) = Ascii.eqb a b && String.prefix s1 s2.
Proof.
  cbn [String.prefix]. destruct (ascii_dec a b) as [->|Hn].
  - rewrite Ascii.eqb_refl. reflexivity.
  - apply Ascii.eqb_neq in Hn. rewrite Hn. reflexivity.
Qed.

Lemma prefix_append (sep s : string) : String.prefix sep (sep ++ s) = true.
Proof.
  induction sep as [|a sep IH]; [apply prefix_empty|].
  change (String a sep ++ s) with (String a (sep ++ s)).
  rewrite prefix_cons, Ascii.eqb_refl. exact IH.
Qed.

Lemma split_from_skip (sep u s piece : string) :
  split_from sep (String.length u) piece (u ++ s) = split_from sep 0 piece s.
Proof. induction u as [|c u IH]; [reflexivity | exact IH]. Qed.

(** A separator at the head ends the piece being read. *)
Lemma split_from_sep (a : ascii) (sep s piece : string) :
  split_from (String a sep) 0 piece (String a sep ++ s)
  = piece :: split_from (String a sep) 0 EmptyString s.
Proof.
  change (String a sep ++ s) with (String a (sep ++ s)). cbn [split_from].
  change (String a (sep ++ s)) with (String a sep ++ s). rewrite prefix_append.
  replace (String.length (String a sep) - 1) with (String.length sep)
    by (simpl; lia).
  rewrite split_from_skip. reflexivity.
Qed.

(** Without a separator there is one piece. *)
Lemma split_from_none (sep : string) (s : string) :
  forall piece, contains sep s = false -> split_from sep 0 piece s = [piece ++ s].
Proof.
  induction s as [|c s IH]; intros piece H.
  - simpl. rewrite append_empty_r. reflexivity.
  - cbn [contains] in H. apply orb_false_iff in H. destruct H as [Hp Hc].
    cbn [split_from]. rewrite Hp, (IH _ Hc), append_assoc. reflexivity.
Qed.

Lemma split_from_nonempty (sep : string) (s : string) :
  forall skip piece, split_from sep skip piece s <> [].
Proof.
  induction s as [|c s IH]; intros skip piece; cbn [split_from]; [discriminate|].
  destruct skip as [|k]; [|apply IH].
  destruct (String.prefix sep (String c s)); [discriminate | apply IH].
Qed.

Lemma last_cons {A : Type} (a : A) (l : list A) (d : A) :
  l <> [] -> List.last (a :: l) d = List.last l d.
Proof. destruct l; [contradiction | reflexivity]. Qed.

(** The last piece of a split by [./] is what follows the last [./]. *)
Lemma split_from_last (tail : string) :
  contains "./" tail = false ->
  forall n pre piece,
    String.length pre <= n ->
    List.last (split_from "./" 0 piece (pre ++ "./" ++ tail)) EmptyString = tail.
Proof.
  intros Htail.
  assert (Hbase : forall piece,
             List.last (split_from "./" 0 piece ("./" ++ tail)) EmptyString = tail).
  { intros piece. rewrite split_from_sep, (split_from_none "./" tail _ Htail).
    reflexivity. }
  induction n as [|n IH]; intros pre piece Hlen.
  - destruct pre; [apply Hbase | simpl in Hlen; lia].
  - destruct pre as [|c pre]; [apply Hbase|].
    change (String c pre ++ "./" ++ tail) with (String c (pre ++ "./" ++ tail)).
    cbn [split_from].
    destruct (String.prefix "./" (String c (pre ++ "./" ++ tail))) eqn:Hp.
    + rewrite prefix_cons in Hp. apply andb_true_iff in Hp. destruct Hp as [_ Hp].
      destruct pre as [|c' pre]; [discriminate Hp|].
      cbn [String.length Nat.sub].
      change (String c' pre ++ "./" ++ tail) with (String c' (pre ++ "./" ++ tail)).
      cbn [split_from]. rewrite last_cons; [|apply split_from_nonempty].
      apply IH. simpl in Hlen. lia.
    + apply IH. simpl in Hlen. lia.
Qed.

(** X14.  The link of a record depends only on what follows the last [./] of the
    [href]: without any [./] in [tail], the URL of the document is
    [base_url/Home/tail] for the [href] [tail] and for every [href] that ends in
    [./] and [tail]. *)
Theorem download_url_of_relative (tail : string) :
  contains "./" tail = false ->
  download_url_of tail = base_url ++ "/Home/" ++ tail
  /\ forall pre, download_url_of (pre ++ "./" ++ tail) = base_url ++ "/Home/" ++ tail.
Proof.
  intros Htail. unfold download_url_of, str_split. split.
  - rewrite (split_from_none "./" tail _ Htail). reflexivity.
  - intros pre. rewrite (split_from_last tail Htail (String.length pre) pre); auto.
Qed.

Lemma download_url_of_relative_witness :
  download_url_of "Download?id=7"
  = "https://programs.iowadnr.gov/documentsearch/Home/Download?id=7"
  /\ forall pre,
       download_url_of (pre ++ "./Download?id=7")
       = "https://programs.iowadnr.gov/documentsearch/Home/Download?id=7".
Proof. apply (download_url_of_relative "Download?id=7"). reflexivity. Defined.

(** The first piece of a split by [/] ends at the first [/]. *)
Lemma split_from_slash (pre s : string) :
  contains "/" pre = false ->
  forall piece,
    split_from "/" 0 piece (pre ++ "/" ++ s)
    = (piece ++ pre) :: split_from "/" 0 EmptyString s.
Proof.
  induction pre as [|c pre IH]; intros H piece.
  - rewrite append_empty_r. apply split_from_sep.
  - cbn [contains] in H. apply orb_false_iff in H. destruct H as [Hp Hc].
    change (String c pre ++ "/" ++ s) with (String c (pre ++ "/" ++ s)).
    cbn [split_from].
    assert (Hp' : String.prefix "/" (String c (pre ++ "/" ++ s)) = false).
    { rewrite prefix_cons in Hp |- *. rewrite !prefix_empty in *. exact Hp. }
    rewrite Hp', (IH Hc), append_assoc. reflexivity.
Qed.

Lemma digit_not_int_space (c : ascii) :
  Char.is_digit c = true -> int_space c = false.
Proof.
  unfold Char.is_digit, int_space. intros H.
  apply andb_true_iff in H. destruct H as [H1 H2].
  apply N.leb_le in H1. apply N.leb_le in H2.
  assert (E1 : (Char.code c <=? 13)%N = false) by (apply N.leb_gt; lia).
  assert (E2 : (Char.code c =? 32)%N = false) by (apply N.eqb_neq; lia).
  assert (E3 : (Char.code c =? 133)%N = false) by (apply N.eqb_neq; lia).
  assert (E4 : (Char.code c =? 160)%N = false) by (apply N.eqb_neq; lia).
  rewrite E1, E2, E3, E4, andb_false_r. reflexivity.
Qed.

Lemma rstrip_by_digits (y : string) :
  all_chars Char.is_digit y = true -> rstrip_by int_space y = y.
Proof.
  induction y as [|c y IH]; intros H; [reflexivity|].
  simpl in H. apply andb_true_iff in H. destruct H as [Hc Hy].
  cbn [rstrip_by]. rewrite (IH Hy), (digit_not_int_space c Hc), andb_false_r.
  reflexivity.
Qed.

Lemma digits_no_slash (y : string) :
  all_chars Char.is_digit y = true -> contains "/" y = false.
Proof.
  induction y as [|c y IH]; intros H; [reflexivity|].
  simpl in H. apply andb_true_iff in H. destruct H as [Hc Hy].
  cbn [contains]. rewrite (IH Hy), orb_false_r, prefix_cons, prefix_empty, andb_true_r.
  apply Ascii.eqb_neq. intros <-. discriminate Hc.
Qed.

Lemma int_digits_value (y : string) :
  forall after_digit acc count,
    all_chars Char.is_digit y = true ->
    after_digit = true \/ y <> EmptyString ->
    int_digits after_digit (Z.of_N acc) count y
    = Returns (Z.of_N (digits_value acc y), count + String.length y).
Proof.
  induction y as [|c y IH]; intros after_digit acc count H Hne.
  - destruct Hne as [-> | Hne]; [|contradiction Hne; reflexivity].
    simpl. rewrite Nat.add_0_r. reflexivity.
  - simpl in H. apply andb_true_iff in H. destruct H as [Hc Hy].
    cbn [int_digits digits_value String.length]. rewrite Hc.
    replace (10 * Z.of_N acc + Z.of_N (digit_value c))%Z
      with (Z.of_N (10 * acc + digit_value c)) by lia.
    rewrite (IH true _ (S count) Hy); [|auto].
    rewrite Nat.add_succ_r. reflexivity.
Qed.

(** [int] of a numeral of decimal digits. *)
Lemma int_of_digits (y : string) :
  y <> EmptyString ->
  all_chars Char.is_digit y = true ->
  String.length y <= max_str_digits ->
  int y = Returns (Z.of_N (digits_value 0 y)).
Proof.
  intros Hne Hy Hlen. unfold int.
  assert (Hl : lstrip_by int_space y = y).
  { destruct y as [|c y]; [reflexivity|]. simpl in Hy.
    apply andb_true_iff in Hy. destruct Hy as [Hc _].
    cbn [lstrip_by]. rewrite (digit_not_int_space c Hc). reflexivity. }
  rewrite Hl, (rstrip_by_digits y Hy).
  destruct y as [|c y]; [contradiction Hne; reflexivity|].
  assert (Hc : Char.is_digit c = true).
  { simpl in Hy. apply andb_true_iff in Hy. apply Hy. }
  assert (Hminus : Ascii.eqb c "-" = false).
  { apply Ascii.eqb_neq. intros ->. discriminate Hc. }
  assert (Hplus : Ascii.eqb c "+" = false).
  { apply Ascii.eqb_neq. intros ->. discriminate Hc. }
  rewrite Hminus, Hplus.
  change 0%Z with (Z.of_N 0).
  rewrite (int_digits_value _ false 0%N 0 Hy); [|right; discriminate].
  apply Nat.ltb_ge in Hlen. cbn [Nat.add]. rewrite Hlen. reflexivity.
Qed.

(** X15.  The year of a record is the third field of the date: for a date
    [m/d/y] in the third column, surrounded by white space or not, with a
    numeral of decimal digits for [y], the year read is the number [y]. *)
Theorem year_of_date (cols : row) (col2 : cell) (m d y : string) :
  nth_error cols 2 = Some col2 ->
  strip (cell_text col2) = m ++ "/" ++ d ++ "/" ++ y ->
  contains "/" m = false ->
  contains "/" d = false ->
  y <> EmptyString ->
  all_chars Char.is_digit y = true ->
  String.length y <= max_str_digits ->
  year_of cols = Returns (Z.of_N (digits_value 0 y)).
Proof.
  intros Hcol Hdate Hm Hd Hne Hy Hlen.
  unfold year_of, getitem at 1. rewrite Hcol. cbn [and_then].
  rewrite Hdate. unfold str_split.
  rewrite (split_from_slash m _ Hm), (split_from_slash d _ Hd).
  rewrite (split_from_none "/" y _ (digits_no_slash y Hy)).
  cbn [getitem nth_error and_then]. apply (int_of_digits y Hne Hy Hlen).
Qed.

Lemma year_of_date_witness :
  year_of (order_row "./Download?id=1" " 01/02/2020 ") = Returns 2020%Z.
Proof.
  apply (year_of_date (order_row "./Download?id=1" " 01/02/2020 ")
           (plain " 01/02/2020 ") "01" "02" "2020");
    try reflexivity; [discriminate | vm_compute; lia].
Defined.

(** ** The scraper: what is fetched *)

Lemma fetched_app (evs1 evs2 : list event) :
  fetched (evs1 ++ evs2) = (fetched evs1 ++ fetched evs2)%list.
Proof.
  induction evs1 as [|e evs1 IH]; [reflexivity|].
  destruct e; simpl; rewrite IH; reflexivity.
Qed.

Lemma fetched_page_events (evs : list event) :
  forallb is_page_event evs = true -> fetched evs = [].
Proof.
  induction evs as [|e evs IH]; intros H; [reflexivity|].
  simpl in H. apply andb_true_iff in H. destruct H as [He H].
  destruct e; try discriminate He. simpl. auto.
Qed.

Lemma plumber_loop_quiet (w : World) (pages : list (page w)) :
  forall i text st,
  exists r evs,
    plumber_loop w pages i text st = (r, after st evs) /\ fetched evs = [].
Proof.
  induction pages as [|pg rest IH]; intros i text st.
  - exists (Returns text), []. rewrite after_nil. split; reflexivity.
  - cbn [plumber_loop]. unfold bind at 1. unfold call. unfold bind at 1.
    unfold record at 1. unfold lift.
    destruct (extract_text w pg) as [[t|]|e].
    + destruct (is_empty t).
      * destruct (IH (S i) text (after st [EvExtractText i])) as (r & evs & -> & H).
        exists r, (EvExtractText i :: evs). rewrite after_after. split; auto.
      * destruct (IH (S i) (text ++ t ++ newline) (after st [EvExtractText i]))
          as (r & evs & -> & H).
        exists r, (EvExtractText i :: evs). rewrite after_after. split; auto.
    + destruct (IH (S i) text (after st [EvExtractText i])) as (r & evs & -> & H).
      exists r, (EvExtractText i :: evs). rewrite after_after. split; auto.
    + exists (Raises e), [EvExtractText i]. split; reflexivity.
Qed.

Lemma extract_with_pdfplumber_quiet (w : World) (pdf_content : bytes) (st : state) :
  exists r evs,
    _extract_with_pdfplumber w pdf_content st = (Returns r, after st evs)
    /\ fetched evs = [].
Proof.
  unfold _extract_with_pdfplumber, try_except. unfold bind at 1. unfold call.
  unfold bind at 1. unfold record at 1. unfold lift.
  destruct (pdfplumber_open w pdf_content) as [pages|e].
  - unfold bind.
    destruct (plumber_loop_quiet w pages 1 EmptyString (after st [EvPdfplumberOpen]))
      as (r & evs & H & Hev).
    change {| files := files st; trace := (trace st ++ [EvPdfplumberOpen])%list |}
      with (after st [EvPdfplumberOpen]).
    rewrite H. rewrite after_after.
    destruct r as [text|e]; unfold ret; eauto.
  - unfold ret. exists None, [EvPdfplumberOpen]. split; reflexivity.
Qed.

Lemma extract_with_ocr_quiet (w : World) (pdf_content : bytes) (st : state) :
  exists r st',
    _extract_with_ocr w pdf_content st = (Returns r, st')
    /\ fetched (trace st') = fetched (trace st).
Proof.
  destruct (temp_name w (map fst (files st))) as [p|e] eqn:Hname.
  - destruct (on_disk p st) eqn:Hd.
    + destruct (NamedTemporaryFile_fails w st) as [e He].
      { intros q Hq. rewrite Hname in Hq. injection Hq as <-. exact Hd. }
      unfold _extract_with_ocr, try_except. unfold bind at 1. unfold bind at 1.
      unfold bind at 1. rewrite He. unfold ret.
      eexists None, _. split; [reflexivity|].
      cbn [trace after]. rewrite fetched_app. apply app_nil_r.
    + destruct (write_fails w p pdf_content) eqn:Hw.
      * unfold _extract_with_ocr, try_except. unfold bind at 1. unfold bind at 1.
        unfold bind at 1. rewrite (NamedTemporaryFile_run w st p Hname Hd).
        rewrite write_run, Hw. unfold ret.
        eexists None, _. split; [reflexivity|].
        cbn [trace after]. rewrite !fetched_app. cbn [fetched].
        rewrite !app_nil_r. reflexivity.
      * destruct (extract_with_ocr_written w pdf_content st p Hname Hd Hw)
          as (r & evs & st' & Hrun & Htr & Hev & _).
        exists r, st'. split; [exact Hrun|].
        rewrite Htr, !fetched_app, (fetched_page_events evs Hev). cbn [fetched app].
        apply app_nil_r.
  - destruct (NamedTemporaryFile_fails w st) as [e' He].
    { intros q Hq. rewrite Hname in Hq. discriminate Hq. }
    unfold _extract_with_ocr, try_except. unfold bind at 1. unfold bind at 1.
    unfold bind at 1. rewrite He. unfold ret.
    eexists None, _. split; [reflexivity|].
    cbn [trace after]. rewrite fetched_app. apply app_nil_r.
Qed.

Lemma ocr_fallback_quiet (w : World) (pdf_content : bytes) (st : state) :
  exists r st',
    ocr_fallback w pdf_content st = (Returns r, st')
    /\ fetched (trace st') = fetched (trace st).
Proof.
  destruct (extract_with_ocr_quiet w pdf_content st) as (ocr_text & st' & Hrun & Htr).
  unfold ocr_fallback, bind. rewrite Hrun.
  destruct ocr_text as [o|]; [destruct (meaningful (Some o))|]; unfold ret; eauto.
Qed.

(** [extract_from_pdf] returns, and fetches its URL once, on every path. *)
Lemma extract_from_pdf_fetches (w : World) (url : string) (st : state) :
  exists r st',
    extract_from_pdf w url st = (Returns r, st')
    /\ fetched (trace st') = (fetched (trace st) ++ [url])%list.
Proof.
  assert (Hget : fetched (trace (after st [EvGet url]))
                 = (fetched (trace st) ++ [url])%list).
  { cbn [trace after]. rewrite fetched_app. reflexivity. }
  destruct (requests_get w url) as [pdf_content|e] eqn:Hreq.
  - destruct (extract_with_pdfplumber_quiet w pdf_content (after st [EvGet url]))
      as (pdfplumber_text & evs & Hpl & Hev).
    rewrite (extract_from_pdf_fetched w url st _ pdf_content pdfplumber_text Hreq Hpl).
    assert (Hst1 : fetched (trace (after (after st [EvGet url]) evs))
                   = (fetched (trace st) ++ [url])%list).
    { rewrite <- Hget. cbn [trace after]. rewrite (fetched_app _ evs), Hev.
      apply app_nil_r. }
    destruct (meaningful pdfplumber_text).
    + eauto.
    + destruct (ocr_fallback_quiet w pdf_content (after (after st [EvGet url]) evs))
        as (r & st' & Hrun & Htr).
      exists r, st'. split; [exact Hrun|]. rewrite Htr. exact Hst1.
  - unfold extract_from_pdf, try_except. unfold bind at 1.
    unfold call, bind, record, lift. rewrite Hreq. unfold ret. eauto.
Qed.

(** A row never raises; it fetches one document at most, and the document of
    the record it makes. *)
Lemma process_row_fetches (w : World) (cols : row) (st : state) :
  exists r st' urls,
    _process_row w cols st = (Returns r, st')
    /\ fetched (trace st') = (fetched (trace st) ++ urls)%list
    /\ match r with
       | Some v => urls = [link v]
       | None => List.length urls <= 1
       end.
Proof.
  assert (Hno : exists r st' urls,
             (Returns (@None Violation), st) = (Returns r, st')
             /\ fetched (trace st') = (fetched (trace st) ++ urls)%list
             /\ match r with
                | Some v => urls = [link v]
                | None => List.length urls <= 1
                end).
  { exists None, st, []. rewrite app_nil_r. simpl. auto. }
  destruct (Nat.ltb (List.length cols) 6) eqn:Hlen.
  - rewrite process_row_passed_over; [exact Hno|]. left. apply Nat.ltb_lt. exact Hlen.
  - destruct (six_cols cols Hlen) as (c0 & c1 & c2 & c3 & c4 & c5 & more & Hcols).
    assert (H0 : nth_error cols 0 = Some c0) by (rewrite Hcols; reflexivity).
    destruct (cell_anchor c0) as [[href|]|] eqn:Ha.
    + rewrite (process_row_run w cols st c0 href Hlen H0 Ha).
      destruct (extract_from_pdf_fetches w (download_url_of href) st)
        as (r & st' & -> & Htr).
      destruct r as [d|].
      * destruct (extract_settlement_returns (Some d)) as [s ->].
        destruct (year_of cols) as [y|e].
        -- eexists _, st', _. split; [reflexivity|]. split; [exact Htr|]. reflexivity.
        -- exists None, st', [download_url_of href]. simpl. auto.
      * exists None, st', [download_url_of href]. simpl. auto.
    + rewrite process_row_passed_over; [exact Hno|]. right. exists c0. auto.
    + rewrite process_row_passed_over; [exact Hno|]. right. exists c0. auto.
Qed.

(** ** The scraper: the loops over rows and pages *)

Lemma subsequence_empty {A : Type} (l : list A) : subsequence [] l.
Proof. induction l; constructor; assumption. Qed.

Lemma subsequence_app {A : Type} (l1 l2 l1' l2' : list A) :
  subsequence l1 l2 -> subsequence l1' l2' -> subsequence (l1 ++ l1') (l2 ++ l2').
Proof. intros H H'. induction H; simpl; try constructor; assumption. Qed.

(** The loop over the rows of a page: it never raises, adds records in the
    order of their documents, adds none once the limit is reached, and stops
    fetching with the record that reaches the limit. *)
Lemma rows_loop_run (w : World) (results_limit : Z) (rows : list row) :
  forall results processed st,
  exists added urls st',
    rows_loop w results_limit rows results processed st
    = (Returns ((results ++ added)%list,
                (processed + Z.of_nat (List.length added))%Z), st')
    /\ fetched (trace st') = (fetched (trace st) ++ urls)%list
    /\ subsequence (map link added) urls
    /\ ((results_limit <= processed)%Z -> added = [] /\ urls = [] /\ st' = st)
    /\ ((processed <= results_limit)%Z ->
        (processed + Z.of_nat (List.length added) <= results_limit)%Z)
    /\ ((results_limit <= processed + Z.of_nat (List.length added))%Z ->
        added = []
        \/ exists added0 urls0 v,
             added = (added0 ++ [v])%list /\ urls = (urls0 ++ [link v])%list).
Proof.
  induction rows as [|r rest IH]; intros results processed st.
  - exists [], [], st. cbn [rows_loop]. unfold ret.
    rewrite !app_nil_r, Z.add_0_r. repeat split; auto. constructor.
  - cbn [rows_loop]. destruct (processed >=? results_limit)%Z eqn:Hge.
    + exists [], [], st. unfold ret.
      rewrite !app_nil_r, Z.add_0_r. repeat split; auto. constructor.
    + rewrite Z.geb_leb in Hge. apply Z.leb_gt in Hge.
      destruct (process_row_fetches w r st) as (o & st1 & urls1 & Hrun & Htr & Ho).
      unfold bind at 1. rewrite Hrun. destruct o as [v|].
      * destruct (IH (results ++ [v])%list (processed + 1)%Z st1)
          as (added & urls & st' & -> & Htr' & Hsub & Hfull & Hle & Hstop).
        subst urls1. exists (v :: added), (link v :: urls), st'.
        split; [|split; [|split; [|split; [|split]]]].
        -- rewrite <- app_assoc. cbn [app List.length]. rewrite Nat2Z.inj_succ.
           do 3 f_equal. lia.
        -- rewrite Htr', Htr, <- app_assoc. reflexivity.
        -- cbn [map]. apply subsequence_keep. exact Hsub.
        -- lia.
        -- cbn [List.length]. rewrite Nat2Z.inj_succ. lia.
        -- cbn [List.length]. rewrite Nat2Z.inj_succ. intros Hfin. right.
           assert (Hfin' : (results_limit
                            <= processed + 1 + Z.of_nat (List.length added))%Z) by lia.
           destruct (Hstop Hfin') as [-> | (added0 & urls0 & v' & -> & ->)].
           ++ simpl in Hfin'. destruct Hfull as (_ & -> & _); [lia|].
              exists [], [], v. split; reflexivity.
           ++ exists (v :: added0), (link v :: urls0), v'. split; reflexivity.
      * destruct (IH results processed st1)
          as (added & urls & st' & -> & Htr' & Hsub & Hfull & Hle & Hstop).
        exists added, (urls1 ++ urls)%list, st'.
        split; [|split; [|split; [|split; [|split]]]].
        -- reflexivity.
        -- rewrite Htr', Htr, <- app_assoc. reflexivity.
        -- apply (subsequence_app [] urls1); [apply subsequence_empty | exact Hsub].
        -- lia.
        -- exact Hle.
        -- intros Hfin.
           destruct (Hstop Hfin) as [-> | (added0 & urls0 & v' & -> & ->)]; [auto|].
           right. exists added0, (urls1 ++ urls0)%list, v'.
           rewrite <- app_assoc. split; reflexivity.
Qed.

Lemma pages_loop_eq (w : World) (results_limit : Z)
    (current : outcome (option (list row)))
    (following : list (outcome (option (list row))))
    (results : list Violation) (processed : Z) :
  pages_loop w results_limit current following results processed
  = if (processed <? results_limit)%Z then
      table <- lift current ;;
      match table with
      | None => ret results
      | Some trs =>
          state <- rows_loop w results_limit (List.tl trs) results processed ;;
          let (results, processed) := state in
          if (processed >=? results_limit)%Z then ret results
          else
            match following with
            | [] => ret results
            | next :: rest => pages_loop w results_limit next rest results processed
            end
      end
    else ret results.
Proof. destruct following; reflexivity. Qed.

(** The loop over the pages: whatever it does, only documents of rows are
    fetched; when it returns, the records added are within the limit, in the
    order of their documents, and the last document fetched is that of the
    record that reaches the limit. *)
Lemma pages_loop_run (w : World) (results_limit : Z)
    (following : list (outcome (option (list row)))) :
  forall current results processed st,
  exists r urls st',
    pages_loop w results_limit current following results processed st = (r, st')
    /\ fetched (trace st') = (fetched (trace st) ++ urls)%list
    /\ ((results_limit <= processed)%Z -> r = Returns results /\ st' = st)
    /\ forall rs, r = Returns rs ->
       exists added,
         rs = (results ++ added)%list
         /\ subsequence (map link added) urls
         /\ ((processed <= results_limit)%Z ->
             (processed + Z.of_nat (List.length added) <= results_limit)%Z)
         /\ ((results_limit <= processed + Z.of_nat (List.length added))%Z ->
             added = []
             \/ exists added0 urls0 v,
                  added = (added0 ++ [v])%list /\ urls = (urls0 ++ [link v])%list).
Proof.
  assert (Hstay : forall results processed (st : state),
             exists r urls st',
               (Returns results, st) = (r, st')
               /\ fetched (trace st') = (fetched (trace st) ++ urls)%list
               /\ ((results_limit <= processed)%Z -> r = Returns results /\ st' = st)
               /\ forall rs, r = Returns rs ->
                  exists added,
                    rs = (results ++ added)%list
                    /\ subsequence (map link added) urls
                    /\ ((processed <= results_limit)%Z ->
                        (processed + Z.of_nat (List.length added) <= results_limit)%Z)
                    /\ ((results_limit <= processed + Z.of_nat (List.length added))%Z ->
                        added = []
                        \/ exists added0 urls0 v,
                             added = (added0 ++ [v])%list
                             /\ urls = (urls0 ++ [link v])%list)).
  { intros results processed st. exists (Returns results), [], st.
    rewrite app_nil_r. repeat split; auto.
    intros rs [= <-]. exists []. rewrite app_nil_r, Z.add_0_r.
    repeat split; auto. constructor. }
  induction following as [|next rest IH]; intros current results processed st;
    rewrite pages_loop_eq;
    (destruct (processed <? results_limit)%Z eqn:Hlt; [|apply Hstay]);
    apply Z.ltb_lt in Hlt;
    unfold bind at 1; unfold lift at 1;
    (destruct current as [[trs|]|e];
     [ | apply Hstay
       | exists (Raises e), [], st; rewrite app_nil_r;
         repeat split; try lia; intros rs Hrs; discriminate Hrs ]);
    destruct (rows_loop_run w results_limit (List.tl trs) results processed st)
      as (added & urls & st1 & Hrun & Htr & Hsub & _ & Hle & Hstop);
    unfold bind at 1; rewrite Hrun;
    destruct (processed + Z.of_nat (List.length added) >=? results_limit)%Z eqn:Hge.
  1, 2, 3:
    exists (Returns (results ++ added)%list), urls, st1; unfold ret;
    (split; [reflexivity|]); (split; [exact Htr|]); (split; [lia|]);
    intros rs [= <-]; exists added; repeat split; auto.
  rewrite Z.geb_leb in Hge. apply Z.leb_gt in Hge.
  destruct (IH next (results ++ added)%list
              (processed + Z.of_nat (List.length added))%Z st1)
    as (r & urls' & st' & -> & Htr' & _ & Hrs).
  exists r, (urls ++ urls')%list, st'.
  split; [reflexivity|]. split; [rewrite Htr', Htr, <- app_assoc; reflexivity|].
  split; [lia|].
  intros rs Hr. destruct (Hrs rs Hr) as (added' & -> & Hsub' & Hle' & Hstop').
  exists (added ++ added')%list. rewrite length_app, Nat2Z.inj_add.
  split; [symmetry; apply app_assoc|].
  split; [rewrite map_app; apply subsequence_app; auto|].
  split; [lia|].
  intros Hfin.
  assert (Hfin' : (results_limit
                   <= processed + Z.of_nat (List.length added)
                      + Z.of_nat (List.length added'))%Z) by lia.
  destruct (Hstop' Hfin') as [-> | (added0 & urls0 & v & -> & ->)];
    [simpl in Hfin; lia|].
  right. exists (added ++ added0)%list, (urls ++ urls0)%list, v.
  rewrite <- !app_assoc. split; reflexivity.
Qed.

(** ** The scraper: [search_documents] *)

Lemma slice_to_all {A : Type} (n : Z) (l : list A) :
  (Z.of_nat (List.length l) <= Z.max 0 n)%Z -> slice_to n l = l.
Proof.
  intros H. unfold slice_to. destruct (0 <=? n)%Z eqn:Hn.
  - apply Z.leb_le in Hn. apply firstn_all2. lia.
  - apply Z.leb_gt in Hn. destruct l as [|a l]; [apply firstn_nil|].
    simpl List.length in H. lia.
Qed.

(** What the page loop returns from no record, and what the final slice makes
    of it. *)
Lemma pages_loop_from_start (w : World) (results_limit : Z)
    (current : outcome (option (list row)))
    (following : list (outcome (option (list row)))) (st : state) :
  exists r urls st',
    pages_loop w results_limit current following [] 0%Z st = (r, st')
    /\ fetched (trace st') = (fetched (trace st) ++ urls)%list
    /\ ((results_limit <= 0)%Z -> r = Returns [] /\ st' = st)
    /\ forall rs, r = Returns rs ->
       subsequence (map link rs) urls
       /\ (Z.of_nat (List.length rs) <= Z.max 0 results_limit)%Z
       /\ ((0 < results_limit)%Z -> Z.of_nat (List.length rs) = results_limit ->
           exists results0 urls0 v,
             rs = (results0 ++ [v])%list /\ urls = (urls0 ++ [link v])%list).
Proof.
  destruct (pages_loop_run w results_limit following current [] 0%Z st)
    as (r & urls & st' & Hrun & Htr & Hfull & Hrs).
  exists r, urls, st'. split; [exact Hrun|]. split; [exact Htr|].
  split; [exact Hfull|].
  intros rs Hr. destruct (Hrs rs Hr) as (added & -> & Hsub & Hle & Hstop).
  cbn [app]. split; [exact Hsub|]. split.
  - destruct (Z.le_gt_cases 0 results_limit) as [Hpos|Hneg]; [lia|].
    destruct Hfull as [Hr' _]; [lia|]. rewrite Hr in Hr'. injection Hr' as ->.
    simpl. lia.
  - intros Hpos Hlen. destruct Hstop as [-> | H]; [lia | simpl in Hlen; lia | exact H].
Qed.

(** The run of [search_documents]: it returns; only documents of rows are
    fetched; the records are within the limit. *)
Lemma search_documents_run (w : World) (b : Browser) (results_limit : Z)
    (st : state) :
  exists results urls st',
    search_documents w b results_limit st = (Returns results, st')
    /\ fetched (trace st') = (fetched (trace st) ++ urls)%list
    /\ ((results_limit <= 0)%Z -> results = [] /\ st' = st)
    /\ subsequence (map link results) urls
    /\ (Z.of_nat (List.length results) <= Z.max 0 results_limit)%Z
    /\ ((0 < results_limit)%Z -> Z.of_nat (List.length results) = results_limit ->
        exists results0 urls0 v,
          results = (results0 ++ [v])%list /\ urls = (urls0 ++ [link v])%list).
Proof.
  assert (Hnone : forall st0 : state,
             fetched (trace st0) = (fetched (trace st0) ++ [])%list
             /\ ((results_limit <= 0)%Z -> @nil Violation = [] /\ st0 = st0)
             /\ subsequence (map link []) []
             /\ (Z.of_nat (List.length (@nil Violation)) <= Z.max 0 results_limit)%Z
             /\ ((0 < results_limit)%Z ->
                 Z.of_nat (List.length (@nil Violation)) = results_limit ->
                 exists results0 urls0 v,
                   @nil Violation = (results0 ++ [v])%list
                   /\ @nil string = (urls0 ++ [link v])%list)).
  { intros st0. rewrite app_nil_r. repeat split; auto; simpl; try lia. constructor. }
  unfold search_documents, try_except. unfold bind at 1. unfold lift at 1.
  destruct (search_form b) as [[]|e];
    [|exists [], [], st; split; [reflexivity | apply Hnone]].
  unfold _process_results. unfold bind at 1. unfold lift at 1.
  destruct (results_table b) as [[]|e];
    [|exists [], [], st; split; [reflexivity | apply Hnone]].
  destruct (pages_loop_from_start w results_limit (first_page b) (next_pages b) st)
    as (r & urls & st' & Hrun & Htr & Hfull & Hrs).
  unfold bind at 1. rewrite Hrun. destruct r as [rs|e].
  - destruct (Hrs rs eq_refl) as (Hsub & Hle & Hstop).
    unfold ret. rewrite (slice_to_all results_limit rs Hle).
    exists rs, urls, st'. split; [reflexivity|]. split; [exact Htr|].
    split; [|auto].
    intros Hn. destruct (Hfull Hn) as [[= ->] ->]. auto.
  - unfold ret. exists [], urls, st'. split; [reflexivity|]. split; [exact Htr|].
    split; [intros Hn; destruct (Hfull Hn) as [Hr _]; discriminate Hr|].
    split; [apply subsequence_empty|]. split; [simpl; lia|].
    simpl. intros Hpos Hlen. lia.
Qed.

(** X16.  [search_documents] always returns a list, whatever the site and the
    documents do, and the list has [results_limit] records at most, none when
    the limit is zero or negative. *)
Theorem search_documents_bounded (w : World) (b : Browser) (results_limit : Z)
    (st : state) :
  exists results st',
    search_documents w b results_limit st = (Returns results, st')
    /\ (Z.of_nat (List.length results) <= Z.max 0 results_limit)%Z.
Proof.
  destruct (search_documents_run w b results_limit st)
    as (results & urls & st' & Hrun & _ & _ & _ & Hle & _).
  exists results, st'. auto.
Qed.



(** X18.  The records come in the order in which their documents were fetched:
    the links of the records returned are, in order, among the URLs fetched by
    the call. *)
Theorem search_documents_links (w : World) (b : Browser) (results_limit : Z)
    (st st' : state) (results : list Violation) :
  search_documents w b results_limit st = (Returns results, st') ->
  exists urls,
    fetched (trace st') = (fetched (trace st) ++ urls)%list
    /\ subsequence (map link results) urls.
Proof.
  intros H.
  destruct (search_documents_run w b results_limit st)
    as (results1 & urls & st1 & Hrun & Htr & _ & Hsub & _).
  rewrite Hrun in H. injection H as <- <-. exists urls. auto.
Qed.

Lemma search_documents_links_witness :
  exists urls,
    fetched (trace (snd (search_documents order_world two_pages 2 (initial []))))
    = (fetched (trace (initial [])) ++ urls)%list
    /\ subsequence (map link [order_record "1" 2020; order_record "2" 2021]) urls.
Proof.
  apply (search_documents_links order_world two_pages 2 (initial [])).
  vm_compute. reflexivity.
Defined.

(** X19.  When as many records as the limit are returned, the last document
    fetched is that of the last record: no document is fetched once the limit
    is reached. *)
Theorem search_documents_stops_at_limit (w : World) (b : Browser)
    (results_limit : Z) (st st' : state) (results : list Violation) :
  search_documents w b results_limit st = (Returns results, st') ->
  (0 < results_limit)%Z ->
  Z.of_nat (List.length results) = results_limit ->
  exists results0 urls0 v,
    results = (results0 ++ [v])%list
    /\ fetched (trace st') = (fetched (trace st) ++ urls0 ++ [link v])%list.
Proof.
  intros H Hpos Hlen.
  destruct (search_documents_run w b results_limit st)
    as (results1 & urls & st1 & Hrun & Htr & _ & _ & _ & Hstop).
  rewrite Hrun in H. injection H as <- <-.
  destruct (Hstop Hpos Hlen) as (results0 & urls0 & v & -> & ->).
  exists results0, urls0, v. auto.
Qed.

Lemma search_documents_stops_at_limit_witness :
  exists results0 urls0 v,
    [order_record "1" 2020; order_record "2" 2021] = (results0 ++ [v])%list
    /\ fetched (trace (snd (search_documents order_world two_pages 2 (initial []))))
       = (fetched (trace (initial [])) ++ urls0 ++ [link v])%list.
Proof.
  apply (search_documents_stops_at_limit order_world two_pages 2 (initial [])).
  - vm_compute. reflexivity.
  - lia.
  - reflexivity.
Defined.

(** X20.  The slice [results[: self.results_limit]] at the end of
    [_process_results] never removes a record: the loops have already kept to
    the limit. *)
Theorem process_results_slice_idle (w : World) (b : Browser) (results_limit : Z)
    (st : state) :
  _process_results w b results_limit st
  = (lift (results_table b) ;;;
     pages_loop w results_limit (first_page b) (next_pages b) [] 0%Z) st.
Proof.
  unfold _process_results. unfold bind at 1 3. unfold lift.
  destruct (results_table b) as [[]|e]; [|reflexivity].
  destruct (pages_loop_from_start w results_limit (first_page b) (next_pages b) st)
    as (r & urls & st' & Hrun & _ & _ & Hrs).
  unfold bind. rewrite Hrun. destruct r as [rs|e]; [|reflexivity].
  destruct (Hrs rs eq_refl) as (_ & Hle & _).
  unfold ret. rewrite (slice_to_all results_limit rs Hle). reflexivity.
Qed.

(** X21.  Records are lost when a later page cannot be read: if the rows of the
    first page leave the limit unreached and reading the next page raises,
    [search_documents] returns the empty list, after the documents of the first
    page were fetched. *)
Theorem search_documents_late_failure (w : World) (b : Browser) (results_limit : Z)
    (st st' : state) (trs : list row) (e : exn)
    (more : list (outcome (option (list row))))
    (results : list Violation) (processed : Z) :
  search_form b = Returns tt ->
  results_table b = Returns tt ->
  first_page b = Returns (Some trs) ->
  next_pages b = Raises e :: more ->
  rows_loop w results_limit (List.tl trs) [] 0%Z st
  = (Returns (results, processed), st') ->
  (processed < results_limit)%Z ->
  search_documents w b results_limit st = (Returns [], st').
Proof.
  intros Hform Htable Hfirst Hnext Hrows Hlt.
  assert (Hpos : (0 <? results_limit)%Z = true).
  { destruct (rows_loop_run w results_limit (List.tl trs) [] 0%Z st)
      as (added & urls & st1 & Hrun & _).
    rewrite Hrun in Hrows. injection Hrows as _ Hp _. apply Z.ltb_lt. lia. }
  unfold search_documents, try_except, _process_results.
  unfold bind at 1. unfold lift at 1. rewrite Hform.
  unfold bind at 1. unfold lift at 1. rewrite Htable.
  unfold bind at 1. rewrite Hfirst, Hnext, pages_loop_eq, Hpos.
  unfold bind at 1. unfold lift at 1.
  unfold bind at 1. rewrite Hrows.
  rewrite Z.geb_leb. apply Z.leb_gt in Hlt. rewrite Hlt.
  rewrite pages_loop_eq.
  apply Z.leb_gt in Hlt. apply Z.ltb_lt in Hlt. rewrite Hlt.
  reflexivity.
Qed.

Lemma search_documents_late_failure_witness :
  search_documents order_world broken_second_page 5 (initial [])
  = (Returns [],
     snd (rows_loop order_world 5 [order_row "./Download?id=1" "01/02/2020"] [] 0%Z
            (initial []))).
Proof.
  apply (search_documents_late_failure order_world broken_second_page 5 (initial [])
           _ [header_row; order_row "./Download?id=1" "01/02/2020"] OtherError []
           [order_record "1" 2020] 1%Z).
  - reflexivity.
  - reflexivity.
  - reflexivity.
  - reflexivity.
  - vm_compute. reflexivity.
  - lia.
Defined.
